(** * cube.py: a one-ray-per-pixel renderer for axis-aligned cubes

    A shallow embedding of [cube.py] (classes [Plane], [Cube], [Light];
    functions [compute_lighting], [ray_from_camera], [render]) and the
    properties of its specification that can be settled on it.

    ** Numbers

    The program computes on numpy [float64].  The main development takes a
    float for a real number: every arithmetic operation is exact, so
    rounding, overflow, underflow and signed zeros are outside of it.  What
    the program does with values that are not real numbers is kept where
    the program itself brings them in:

    - [float('inf')] / [np.inf], the initial value of the two [min_dist]
      variables, is the constructor [Inf] of [dist];
    - a division whose divisor can be zero is written out.  Dividing Python
      [int]s raises [ZeroDivisionError]; dividing a numpy array by a zero
      norm gives the array of nan ([0/0] in every component).  A division
      by a divisor the program has just checked ([denom] in
      [Plane.intersect]) is a real division.

    A run that would need a value the model has no place for ends in
    [OutOfModel]; [render_returns] shows that no run of [render] does.

    The theorems on real numbers speak for the program where float64
    follows the reals up to rounding.  Where a property needs it, a
    hypothesis keeps the inputs in that range ([in_norm_range]).  The
    module [F64] has the code of the two classes and of [compute_lighting]
    once more on binary64 floats, and runs it where the floats part from the
    reals: a ray from far away, a light closer to the point than the square
    root of the least float, a side whose half underflows. *)

From Stdlib Require Import Reals Lra Lia ZArith List Bool Permutation.
From Stdlib Require Floats.
Import ListNotations.

Local Open Scope R_scope.

(** ** Comparisons of floats, as booleans *)

Definition Rltb (a b : R) : bool := if Rlt_dec a b then true else false.
Definition Rleb (a b : R) : bool := if Rle_dec a b then true else false.

(** ** numpy arrays of shape (3,) *)

Record vec : Type := mkvec { vx : R; vy : R; vz : R }.

(** [a + b], [a - b] on arrays *)
Definition vadd (a b : vec) : vec := mkvec (vx a + vx b) (vy a + vy b) (vz a + vz b).
Definition vsub (a b : vec) : vec := mkvec (vx a - vx b) (vy a - vy b) (vz a - vz b).
(** [a * k], [k * a] and [a / k] for an array [a] and a scalar [k] *)
Definition vmuls (a : vec) (k : R) : vec := mkvec (vx a * k) (vy a * k) (vz a * k).
Definition smulv (k : R) (a : vec) : vec := mkvec (k * vx a) (k * vy a) (k * vz a).
Definition vdivs (a : vec) (k : R) : vec := mkvec (vx a / k) (vy a / k) (vz a / k).
(** [abs(a)] *)
Definition vabs (a : vec) : vec := mkvec (Rabs (vx a)) (Rabs (vy a)) (Rabs (vz a)).
(** [all(a <= k)] *)
Definition all_le (a : vec) (k : R) : bool := Rleb (vx a) k && Rleb (vy a) k && Rleb (vz a) k.
(** [np.dot(a, b)] *)
Definition dot (a b : vec) : R := vx a * vx b + vy a * vy b + vz a * vz b.
(** [np.linalg.norm(a)] *)
Definition norm (a : vec) : R := sqrt (dot a a).

(** ** class Plane *)

Record Plane : Type := mkPlane { point : vec; normal : vec; pcolor : vec }.

(** [Plane.intersect].  [None] is the tuple [(None, None, None)]. *)
Definition Plane_intersect (self : Plane) (ray_origin ray_direction : vec)
  : option (R * vec * vec) :=
  let denom := dot ray_direction (normal self) in
  if Rltb (Rabs denom) (1 / 1000000) then None
  else
    let t := dot (vsub (point self) ray_origin) (normal self) / denom in
    if Rltb t 0 then None
    else Some (t, normal self, vadd ray_origin (vmuls ray_direction t)).

(** ** [min_dist]: a float, or [float('inf')] before the first hit *)

Inductive dist : Type := Inf | Fin (d : R).

(** [d < m] for a float [d] *)
Definition lt_dist (d : R) (m : dist) : bool :=
  match m with Inf => true | Fin r => Rltb d r end.

(** ** class Cube *)

Record Cube : Type := mkCube { center : vec; side : R; color : vec; planes : list Plane }.

(** [Cube.__init__] *)
Definition Cube_init (center : vec) (side : R) (color : vec) : Cube :=
  let half := side / 2 in
  mkCube center side color
    [ mkPlane (vadd center (smulv half (mkvec 1 0 0))) (mkvec 1 0 0) color;
      mkPlane (vadd center (smulv half (mkvec (-1) 0 0))) (mkvec (-1) 0 0) color;
      mkPlane (vadd center (smulv half (mkvec 0 1 0))) (mkvec 0 1 0) color;
      mkPlane (vadd center (smulv half (mkvec 0 (-1) 0))) (mkvec 0 (-1) 0) color;
      mkPlane (vadd center (smulv half (mkvec 0 0 1))) (mkvec 0 0 1) color;
      mkPlane (vadd center (smulv half (mkvec 0 0 (-1)))) (mkvec 0 0 (-1)) color ].

(** The local variables of [Cube.intersect] that its loop updates. *)
Record face_scan : Type :=
  mkFaceScan { c_min_dist : dist; c_hit_point : option vec; c_normal : option vec }.

(** [all(abs(p - (self.center + n * self.side / 2)) <= self.side / 2)] *)
Definition within_face (self : Cube) (n p : vec) : bool :=
  all_le (vabs (vsub p (vadd (center self) (vdivs (vmuls n (side self)) 2))))
         (side self / 2).

(** The body of [for plane in self.planes]. *)
Definition face_step (self : Cube) (ray_origin ray_direction : vec)
  (st : face_scan) (plane : Plane) : face_scan :=
  match Plane_intersect plane ray_origin ray_direction with
  | Some (dist, n, p) =>
      if within_face self n p then
        if lt_dist dist (c_min_dist st) then mkFaceScan (Fin dist) (Some p) (Some n)
        else st
      else st
  | None => st
  end.

(** [Cube.intersect]: the pair [(min_dist or None, normal)]. *)
Definition Cube_intersect (self : Cube) (ray_origin ray_direction : vec)
  : option R * option vec :=
  let st := fold_left (face_step self ray_origin ray_direction) (planes self)
              (mkFaceScan Inf None None) in
  (match c_min_dist st with Inf => None | Fin d => Some d end, c_normal st).

(** ** class Light *)

Record Light : Type := mkLight { position : vec; intensity : R }.

(** A float that may be nan. *)
Inductive flt : Type := Num (r : R) | NaN.

(** [a /= np.linalg.norm(a)].  [None] is the array [nan, nan, nan]: the norm
    is zero for the zero vector only, and numpy's [0.0 / 0.0] is nan. *)
Definition div_by_norm (a : vec) : option vec :=
  if Req_dec_T (norm a) 0 then None else Some (vdivs a (norm a)).

(** Python's [max(a, b)]: [b] when [b > a], else [a]. *)
Definition pymax (a b : R) : R := if Rltb a b then b else a.

(** [compute_lighting].  With the array of nan for [light_dir], [np.dot] is
    nan, [max(nan, 0)] is nan ([0 > nan] is false) and so is the product. *)
Definition compute_lighting (point normal : vec) (scene_light : Light) : flt :=
  let light_dir := vsub (position scene_light) point in
  match div_by_norm light_dir with
  | Some light_dir => Num (pymax (dot light_dir normal) 0 * intensity scene_light)
  | None => NaN
  end.

(** ** Results of a call *)

Inductive exn : Type :=
  ZeroDivisionError | ValueError | TypeError | UnboundLocalError.

Inductive outcome (A : Type) : Type :=
  | Ret (a : A)
  | Raise (e : exn)
  | OutOfModel.
Arguments Ret {A} a.
Arguments Raise {A} e.
Arguments OutOfModel {A}.

Definition bind {A B : Type} (m : outcome A) (k : A -> outcome B) : outcome B :=
  match m with
  | Ret a => k a
  | Raise e => Raise e
  | OutOfModel => OutOfModel
  end.

(** [for a in l: body], on the state [s] *)
Fixpoint for_each {A S : Type} (l : list A) (body : S -> A -> outcome S) (s : S)
  : outcome S :=
  match l with
  | [] => Ret s
  | a :: l' => bind (body s a) (for_each l' body)
  end.

(** [range(n)] *)
Definition range (n : Z) : list Z := map Z.of_nat (seq 0 (Z.to_nat n)).

(** ** ray_from_camera

    [x], [y], [image_width] and [image_height] are Python [int]s ([render]
    takes the first two from [range] and gives the other two to [range]), so
    [/] raises on a zero divisor.  The last division is by the norm of a
    vector whose third component is -1; it is never zero
    ([ray_direction_norm]), and the model stops there if it were. *)
Definition ray_from_camera (camera_position : vec) (x y image_width image_height : Z)
  (fov : R) : outcome (vec * vec) :=
  if (image_height =? 0)%Z then Raise ZeroDivisionError
  else
    let aspect_ratio := IZR image_width / IZR image_height in
    let scale := tan (fov * (1 / 2) * PI / 180) in
    if (image_width =? 0)%Z then Raise ZeroDivisionError
    else
      let pixel_x := (2 * (IZR x + 1 / 2) / IZR image_width - 1) * aspect_ratio * scale in
      let pixel_y := (1 - 2 * (IZR y + 1 / 2) / IZR image_height) * scale in
      let ray_direction := mkvec pixel_x pixel_y (-1) in
      match div_by_norm ray_direction with
      | Some ray_direction => Ret (camera_position, ray_direction)
      | None => OutOfModel
      end.

(** ** The image: [image_height] rows of [image_width] pixels *)

(** A pixel [image[y, x]]: three floats, or three nan (a colour times nan). *)
Inductive pixel : Type := RGB (c : vec) | NaNs.

Definition image_t : Type := list (list pixel).

(** [np.zeros((image_height, image_width, 3))] *)
Definition zeros (image_height image_width : Z) : image_t :=
  repeat (repeat (RGB (mkvec 0 0 0)) (Z.to_nat image_width)) (Z.to_nat image_height).

Fixpoint list_set {A : Type} (l : list A) (i : nat) (a : A) : list A :=
  match l, i with
  | [], _ => []
  | _ :: l', O => a :: l'
  | b :: l', S i' => b :: list_set l' i' a
  end.

(** [image[y, x]] *)
Definition get_pixel (image : image_t) (y x : Z) : option pixel :=
  match nth_error image (Z.to_nat y) with
  | Some row => nth_error row (Z.to_nat x)
  | None => None
  end.

(** [image[y, x] = v], for [y] and [x] inside the image *)
Definition set_pixel (image : image_t) (y x : Z) (v : pixel) : image_t :=
  match nth_error image (Z.to_nat y) with
  | Some row => list_set image (Z.to_nat y) (list_set row (Z.to_nat x) v)
  | None => image
  end.

(** [np.clip(a, 0, 1)] on one float *)
Definition clip01 (a : R) : R := Rmin (Rmax a 0) 1.

(** [np.clip(color * light_intensity, 0, 1)] *)
Definition clipped_color (color : vec) (light_intensity : flt) : pixel :=
  match light_intensity with
  | Num k => RGB (mkvec (clip01 (vx color * k)) (clip01 (vy color * k)) (clip01 (vz color * k)))
  | NaN => NaNs
  end.

(** [a + b] for a float [a] that may be nan *)
Definition flt_add (a : flt) (b : R) : flt :=
  match a with Num r => Num (r + b) | NaN => NaN end.

(** ** render *)

(** What [render] asks of an object of the scene: [obj.intersect(origin,
    direction)], a pair of a distance or [None] and a normal or [None], and
    [obj.color]. *)
Class Intersectable (Obj : Type) : Type := {
  intersect : Obj -> vec -> vec -> option R * option vec;
  obj_color : Obj -> vec
}.

#[export] Instance Cube_Intersectable : Intersectable Cube :=
  {| intersect := Cube_intersect; obj_color := color |}.

(** [ambient_light = 0.1] *)
Definition ambient_light : R := 1 / 10.

Section Render.
Context {Obj : Type} `{Intersectable Obj}.

(** The local variables of [render] that live across loop iterations.
    [hit_normal] is [None] until its first assignment, then holds the
    normal, itself [None] or an array, of the last assignment.
    [closest_obj] and [min_dist] are assigned anew at the start of every
    pixel, before any read; until then the frame has [None] and [Inf]
    there. *)
Record frame : Type := mkFrame {
  image : image_t;
  hit_count : Z;
  closest_obj : option Obj;
  min_dist : dist;
  hit_normal : option (option vec)
}.

(** The body of [for obj in scene]. *)
Definition scan_obj (origin direction : vec) (fr : frame) (obj : Obj) : frame :=
  let '(dist, normal) := intersect obj origin direction in
  match dist with
  | Some d =>
      if lt_dist d (min_dist fr) then
        mkFrame (image fr) (hit_count fr + 1) (Some obj) (Fin d) (Some normal)
      else fr
  | None => fr
  end.

(** [closest_obj = None; min_dist = np.inf; for obj in scene: ...] *)
Definition resolve (scene : list Obj) (origin direction : vec) (fr : frame) : frame :=
  fold_left (scan_obj origin direction) scene
    (mkFrame (image fr) (hit_count fr) None Inf (hit_normal fr)).

(** [if closest_obj: ...], for the object [obj] it holds *)
Definition shade (scene_light : Light) (origin direction : vec) (y x : Z)
  (fr : frame) (obj : Obj) : outcome frame :=
  match min_dist fr with
  | Fin m =>
      let hit_point := vadd origin (smulv m direction) in
      match hit_normal fr with
      | Some (Some n) =>
          let light_intensity := flt_add (compute_lighting hit_point n scene_light) ambient_light in
          Ret (mkFrame (set_pixel (image fr) y x (clipped_color (obj_color obj) light_intensity))
                 (hit_count fr) (closest_obj fr) (min_dist fr) (hit_normal fr))
      | Some None => Raise TypeError
      | None => Raise UnboundLocalError
      end
  | Inf => OutOfModel
  end.

(** The body of [for x in range(image_width)]. *)
Definition render_pixel (scene : list Obj) (scene_light : Light) (camera_position : vec)
  (image_width image_height : Z) (fov : R) (y : Z) (fr : frame) (x : Z) : outcome frame :=
  bind (ray_from_camera camera_position x y image_width image_height fov)
    (fun '(origin, direction) =>
       let fr := resolve scene origin direction fr in
       match closest_obj fr with
       | Some obj => shade scene_light origin direction y x fr obj
       | None => Ret fr
       end).

(** [render].  [np.zeros] refuses a negative dimension. *)
Definition render (scene : list Obj) (scene_light : Light) (camera_position : vec)
  (image_width image_height : Z) (fov : R) : outcome image_t :=
  if ((image_height <? 0) || (image_width <? 0))%Z then Raise ValueError
  else
    bind
      (for_each (range image_height)
         (fun fr y =>
            for_each (range image_width)
              (render_pixel scene scene_light camera_position image_width image_height fov y)
              fr)
         (mkFrame (zeros image_height image_width) 0 None Inf None))
      (fun fr => Ret (image fr)).

End Render.

(** ** The first nearest candidate

    Both loops of the program that look for a minimum ([Cube.intersect] over
    the planes, [render] over the scene) keep a candidate only when it is
    strictly nearer than the one held.  [nearer] is that update on its own,
    with [None] for no candidate. *)
Section FirstNearest.
Context {A : Type}.

Definition nearer (held cand : option (R * A)) : option (R * A) :=
  match cand, held with
  | Some (d, _), Some (m, _) => if Rltb d m then cand else held
  | Some _, None => cand
  | None, _ => held
  end.

(** [d] with [a] at index [i] is the first nearest candidate of [l]. *)
Definition first_nearest_at (l : list (option (R * A))) (i : nat) (d : R) (a : A) : Prop :=
  nth_error l i = Some (Some (d, a)) /\
  forall j d' a', nth_error l j = Some (Some (d', a')) ->
    d <= d' /\ ((j < i)%nat -> d < d').
End FirstNearest.

(** ** The loop of [render] over the scene, against [nearer] *)
Section Scene.
Context {Obj : Type} `{Intersectable Obj}.

(** What one object offers the loop: its distance, when it has one, with
    the object itself and the normal it returned. *)
Definition scene_cand (origin direction : vec) (obj : Obj)
  : option (R * (Obj * option vec)) :=
  match intersect obj origin direction with
  | (Some d, normal) => Some (d, (obj, normal))
  | (None, _) => None
  end.

(** The frame [fr] holds the candidate [held], on the image [img] and,
    before the first hit, the [hit_normal] [hn] of the earlier pixels. *)
Definition frame_holds (img : image_t) (hn : option (option vec))
  (held : option (R * (Obj * option vec))) (fr : frame) : Prop :=
  image fr = img /\
  match held with
  | Some (d, (obj, normal)) =>
      closest_obj fr = Some obj /\ min_dist fr = Fin d /\ hit_normal fr = Some normal
  | None => closest_obj fr = None /\ min_dist fr = Inf /\ hit_normal fr = hn
  end.
End Scene.

(** ** One pixel of [render], without the frame *)
Section Pixel.
Context {Obj : Type} `{Intersectable Obj}.
Variables (scene : list Obj) (scene_light : Light) (camera_position : vec).
Variables (image_width image_height : Z) (fov : R).

(** The value that the body of the loops writes at [image[y, x]], or
    [None] when it writes nothing. *)
Definition pixel_write (y x : Z) : option pixel :=
  match ray_from_camera camera_position x y image_width image_height fov with
  | Ret (origin, direction) =>
      match fold_left nearer (map (scene_cand origin direction) scene) None with
      | Some (d, (obj, Some n)) =>
          Some (clipped_color (obj_color obj)
                  (flt_add (compute_lighting (vadd origin (smulv d direction)) n scene_light)
                     ambient_light))
      | _ => None
      end
  | _ => None
  end.

(** The pixel of the returned image. *)
Definition pixel_of (y x : Z) : pixel :=
  match pixel_write y x with
  | Some v => v
  | None => RGB (mkvec 0 0 0)
  end.

(** The effect of one run of the body on the image. *)
Definition paint (img : image_t) (c : Z * Z) : image_t :=
  match pixel_write (fst c) (snd c) with
  | Some v => set_pixel img (fst c) (snd c) v
  | None => img
  end.
End Pixel.

(** The pairs [(y, x)] in the order the loops of [render] visit them. *)
Definition pixels (image_width image_height : Z) : list (Z * Z) :=
  flat_map (fun y => map (pair y) (range image_width)) (range image_height).

(** ** The face test of [Cube.intersect], as the specification words it *)

(** Componentwise, [|p - (center + n * side / 2)| <= side / 2] on the three
    axes. *)
Definition face_bound (self : Cube) (n p : vec) : Prop :=
  Rabs (vx p - (vx (center self) + vx n * side self / 2)) <= side self / 2 /\
  Rabs (vy p - (vy (center self) + vy n * side self / 2)) <= side self / 2 /\
  Rabs (vz p - (vz (center self) + vz n * side self / 2)) <= side self / 2.

(** The six axis directions, in the order of [self.planes]. *)
Definition axis_normals : list vec :=
  [ mkvec 1 0 0; mkvec (-1) 0 0; mkvec 0 1 0; mkvec 0 (-1) 0; mkvec 0 0 1; mkvec 0 0 (-1) ].

(** What one plane offers the loop of [Cube.intersect]: its hit, when there
    is one and it passes the face test. *)
Definition face_cand (self : Cube) (ray_origin ray_direction : vec) (plane : Plane)
  : option (R * (vec * vec)) :=
  match Plane_intersect plane ray_origin ray_direction with
  | Some (dist, n, p) => if within_face self n p then Some (dist, (n, p)) else None
  | None => None
  end.

(** The loop variables of [Cube.intersect] that hold a candidate. *)
Definition face_scan_of (held : option (R * (vec * vec))) : face_scan :=
  match held with
  | Some (dist, (n, p)) => mkFaceScan (Fin dist) (Some p) (Some n)
  | None => mkFaceScan Inf None None
  end.

(** The exact test of a face of an axis-aligned box, after the
    specification's words: the two axes orthogonal to the face normal [n]
    (those where [n] is zero) are checked against the extent of the box,
    [|p - center| <= side / 2]. *)
Definition aabb_axis (n_a p_a c_a s : R) : bool :=
  if Req_dec_T n_a 0 then Rleb (Rabs (p_a - c_a)) (s / 2) else true.

Definition aabb_face_test (self : Cube) (n p : vec) : bool :=
  aabb_axis (vx n) (vx p) (vx (center self)) (side self) &&
  aabb_axis (vy n) (vy p) (vy (center self)) (side self) &&
  aabb_axis (vz n) (vz p) (vz (center self)) (side self).

(** A ray that starts beyond one face of the box of centre [c] and side
    [s] and does not head back towards it along that axis. *)
Definition heads_away (c : vec) (s : R) (o d : vec) : Prop :=
  (s / 2 < vx o - vx c /\ 0 <= vx d) \/ (vx o - vx c < - (s / 2) /\ vx d <= 0) \/
  (s / 2 < vy o - vy c /\ 0 <= vy d) \/ (vy o - vy c < - (s / 2) /\ vy d <= 0) \/
  (s / 2 < vz o - vz c /\ 0 <= vz d) \/ (vz o - vz c < - (s / 2) /\ vz d <= 0).

(** ** Shape and content of an image *)

(** [img.shape == (image_height, image_width, 3)] *)
Definition has_shape (img : image_t) (image_height image_width : Z) : Prop :=
  length img = Z.to_nat image_height /\
  Forall (fun row => length row = Z.to_nat image_width) img.

(** Every pixel of the image satisfies [P]. *)
Definition image_all (P : pixel -> Prop) (img : image_t) : Prop := Forall (Forall P) img.

(** Three floats of [0, 1], or three nan. *)
Definition pixel_in_range (v : pixel) : Prop :=
  match v with
  | RGB c => 0 <= vx c <= 1 /\ 0 <= vy c <= 1 /\ 0 <= vz c <= 1
  | NaNs => True
  end.

(** The channel [ch] of the pixel is zero, or the pixel is three nan. *)
Definition channel_zero (ch : vec -> R) (v : pixel) : Prop :=
  match v with
  | RGB c => ch c = 0
  | NaNs => True
  end.

(** ** The range of float64

    A vector whose norm is in this range has a sum of squares that neither
    underflows nor overflows in float64: [np.linalg.norm] returns neither 0
    nor [inf] for it, and the division by the norm follows the reals up to
    rounding. *)
Definition in_norm_range (v : vec) : Prop := / 10 ^ 150 <= norm v <= 10 ^ 150.

(** ** The same code on float64

    The definitions above compute on real numbers.  [F64] has the code of
    [Plane], [Cube] and [compute_lighting] once more, on Rocq's binary64
    floats, with the operations of IEEE 754 that numpy uses: it runs the
    code on given inputs, with the rounding, the underflow and the nan of
    the program.  [np.dot] on three components is taken as the sum from left
    to right.  1e-6 is written in hexadecimal, as its nearest float. *)
Module F64.
Import PrimFloat.
Local Open Scope float_scope.

Record vec : Type := mkvec { vx : float; vy : float; vz : float }.

Definition vadd (a b : vec) : vec := mkvec (vx a + vx b) (vy a + vy b) (vz a + vz b).
Definition vsub (a b : vec) : vec := mkvec (vx a - vx b) (vy a - vy b) (vz a - vz b).
Definition vmuls (a : vec) (k : float) : vec := mkvec (vx a * k) (vy a * k) (vz a * k).
Definition smulv (k : float) (a : vec) : vec := mkvec (k * vx a) (k * vy a) (k * vz a).
Definition vdivs (a : vec) (k : float) : vec := mkvec (vx a / k) (vy a / k) (vz a / k).
Definition vabs (a : vec) : vec := mkvec (abs (vx a)) (abs (vy a)) (abs (vz a)).
Definition all_le (a : vec) (k : float) : bool :=
  (vx a <=? k) && (vy a <=? k) && (vz a <=? k).
Definition dot (a b : vec) : float := vx a * vx b + vy a * vy b + vz a * vz b.
Definition norm (a : vec) : float := sqrt (dot a a).

Record Plane : Type := mkPlane { point : vec; normal : vec; pcolor : vec }.

(** [Plane.intersect] *)
Definition Plane_intersect (self : Plane) (ray_origin ray_direction : vec)
  : option (float * vec * vec) :=
  let denom := dot ray_direction (normal self) in
  if abs denom <? 0x1.0c6f7a0b5ed8dp-20 then None
  else
    let t := dot (vsub (point self) ray_origin) (normal self) / denom in
    if t <? 0 then None
    else Some (t, normal self, vadd ray_origin (vmuls ray_direction t)).

Record Cube : Type := mkCube { center : vec; side : float; color : vec; planes : list Plane }.

(** [Cube.__init__] *)
Definition Cube_init (center : vec) (side : float) (color : vec) : Cube :=
  let half := side / 2 in
  mkCube center side color
    [ mkPlane (vadd center (smulv half (mkvec 1 0 0))) (mkvec 1 0 0) color;
      mkPlane (vadd center (smulv half (mkvec (-1) 0 0))) (mkvec (-1) 0 0) color;
      mkPlane (vadd center (smulv half (mkvec 0 1 0))) (mkvec 0 1 0) color;
      mkPlane (vadd center (smulv half (mkvec 0 (-1) 0))) (mkvec 0 (-1) 0) color;
      mkPlane (vadd center (smulv half (mkvec 0 0 1))) (mkvec 0 0 1) color;
      mkPlane (vadd center (smulv half (mkvec 0 0 (-1)))) (mkvec 0 0 (-1)) color ].

Record face_scan : Type :=
  mkFaceScan { c_min_dist : float; c_hit_point : option vec; c_normal : option vec }.

(** [all(abs(p - (self.center + n * self.side / 2)) <= self.side / 2)] *)
Definition within_face (self : Cube) (n p : vec) : bool :=
  all_le (vabs (vsub p (vadd (center self) (vdivs (vmuls n (side self)) 2))))
         (side self / 2).

(** The body of [for plane in self.planes]. *)
Definition face_step (self : Cube) (ray_origin ray_direction : vec)
  (st : face_scan) (plane : Plane) : face_scan :=
  match Plane_intersect plane ray_origin ray_direction with
  | Some (dist, n, p) =>
      if within_face self n p then
        if dist <? c_min_dist st then mkFaceScan dist (Some p) (Some n)
        else st
      else st
  | None => st
  end.

(** [Cube.intersect] *)
Definition Cube_intersect (self : Cube) (ray_origin ray_direction : vec)
  : option float * option vec :=
  let st := fold_left (face_step self ray_origin ray_direction) (planes self)
              (mkFaceScan infinity None None) in
  (if c_min_dist st =? infinity then None else Some (c_min_dist st), c_normal st).

(** The exact test of a face, after the specification's words: on the two
    axes where the normal is zero, [|p - center| <= side / 2]. *)
Definition aabb_axis (n_a p_a c_a s : float) : bool :=
  if n_a =? 0 then abs (p_a - c_a) <=? s / 2 else true.

Definition aabb_face_test (self : Cube) (n p : vec) : bool :=
  aabb_axis (vx n) (vx p) (vx (center self)) (side self) &&
  aabb_axis (vy n) (vy p) (vy (center self)) (side self) &&
  aabb_axis (vz n) (vz p) (vz (center self)) (side self).

Record Light : Type := mkLight { position : vec; intensity : float }.

(** Python's [max(a, b)] *)
Definition pymax (a b : float) : float := if a <? b then b else a.

(** [compute_lighting] *)
Definition compute_lighting (point normal : vec) (scene_light : Light) : float :=
  let light_dir := vsub (position scene_light) point in
  let light_dir := vdivs light_dir (norm light_dir) in
  pymax (dot light_dir normal) 0 * intensity scene_light.

End F64.

(** ** Properties *)

Lemma Rltb_true (a b : R) : Rltb a b = true <-> a < b.
Proof. unfold Rltb. destruct (Rlt_dec a b); split; intros; try easy. Qed.

Lemma Rltb_false (a b : R) : Rltb a b = false <-> b <= a.
Proof. unfold Rltb. destruct (Rlt_dec a b); split; intros; try easy; lra. Qed.

Lemma Rleb_true (a b : R) : Rleb a b = true <-> a <= b.
Proof. unfold Rleb. destruct (Rle_dec a b); split; intros; try easy. Qed.

Lemma Rleb_false (a b : R) : Rleb a b = false <-> b < a.
Proof. unfold Rleb. destruct (Rle_dec a b); split; intros; try easy; lra. Qed.

(** C3.  With [denom = dot(direction, normal)] and
    [t = dot(plane.point - origin, normal) / denom], [Plane.intersect]
    returns none exactly when [|denom| < 1e-6] or [t < 0]; in every other
    case it returns [t], the plane's normal and the point
    [origin + t * direction].  At [t = 0] the hit is returned. *)
Theorem Plane_intersect_spec (self : Plane) (origin direction : vec) :
  let denom := dot direction (normal self) in
  let t := dot (vsub (point self) origin) (normal self) / denom in
  (Plane_intersect self origin direction = None <->
     Rabs denom < 1 / 1000000 \/ t < 0) /\
  (~ (Rabs denom < 1 / 1000000 \/ t < 0) ->
     Plane_intersect self origin direction =
       Some (t, normal self, vadd origin (smulv t direction))) /\
  (1 / 1000000 <= Rabs denom -> t = 0 ->
     Plane_intersect self origin direction = Some (0, normal self, origin)).
Proof.
  intros denom t. unfold Plane_intersect. fold denom. fold t.
  destruct (Rltb (Rabs denom) (1 / 1000000)) eqn:Hd.
  - apply Rltb_true in Hd. repeat split; intros; try tauto; lra.
  - apply Rltb_false in Hd.
    destruct (Rltb t 0) eqn:Ht.
    + apply Rltb_true in Ht. repeat split; intros; try tauto; lra.
    + apply Rltb_false in Ht.
      assert (Hp : vadd origin (vmuls direction t) = vadd origin (smulv t direction)).
      { unfold vadd, vmuls, smulv; simpl. f_equal; ring. }
      repeat split; intros; try easy; try lra.
      * now rewrite Hp.
      * rewrite Hp. replace t with 0 by easy.
        destruct origin as [ox oy oz]. unfold vadd, smulv; simpl.
        do 2 f_equal. f_equal; ring.
Qed.

(** ** The first nearest candidate *)

Section FirstNearestFacts.
Context {A : Type}.
Implicit Types (l : list (option (R * A))) (held : option (R * A)).

Lemma nearer_None_l cand : nearer (A:=A) None cand = cand.
Proof. now destruct cand as [[d a]|]. Qed.

Lemma fold_nearer_snoc l held cand :
  fold_left nearer (l ++ [cand]) held = nearer (fold_left nearer l held) cand.
Proof. now rewrite fold_left_app. Qed.

Lemma first_nearest_at_snoc_keep l c i d a :
  first_nearest_at l i d a ->
  (forall d' a', c = Some (d', a') -> d <= d') ->
  first_nearest_at (l ++ [c]) i d a.
Proof.
  intros [Hi Hmin] Hc.
  assert (Hlt : (i < length l)%nat) by (apply nth_error_Some; congruence).
  split.
  - now rewrite nth_error_app1.
  - intros j d' a' Hj.
    destruct (Nat.lt_ge_cases j (length l)) as [Hjl | Hjl].
    + rewrite nth_error_app1 in Hj by easy. now apply (Hmin j d' a').
    + rewrite nth_error_app2 in Hj by easy.
      destruct (j - length l)%nat as [|k] eqn:Hk; simpl in Hj.
      * injection Hj as Hj. split; [now apply (Hc d' a') | lia].
      * now destruct k.
Qed.

Lemma first_nearest_at_snoc_new l d a :
  (forall j d' a', nth_error l j = Some (Some (d', a')) -> d < d') ->
  first_nearest_at (l ++ [Some (d, a)]) (length l) d a.
Proof.
  intros Hall. split.
  - rewrite nth_error_app2 by lia. now rewrite Nat.sub_diag.
  - intros j d' a' Hj.
    destruct (Nat.lt_ge_cases j (length l)) as [Hjl | Hjl].
    + rewrite nth_error_app1 in Hj by easy.
      specialize (Hall j d' a' Hj). split; [lra | easy].
    + rewrite nth_error_app2 in Hj by easy.
      destruct (j - length l)%nat as [|k] eqn:Hk; simpl in Hj.
      * injection Hj as Hd Ha. subst. split; [lra | lia].
      * now destruct k.
Qed.

(** What the fold of [nearer] from no candidate holds at the end. *)
Lemma fold_nearer_spec l :
  match fold_left nearer l None with
  | None => forall c, In c l -> c = None
  | Some (d, a) => exists i, first_nearest_at l i d a
  end.
Proof.
  induction l as [|c l IH] using rev_ind; [easy|].
  rewrite fold_nearer_snoc.
  destruct (fold_left nearer l None) as [[m b]|].
  - destruct IH as [i Hi]. destruct c as [[d a]|]; simpl.
    + destruct (Rltb d m) eqn:Hdm.
      * apply Rltb_true in Hdm. exists (length l).
        apply first_nearest_at_snoc_new. intros j d' a' Hj.
        destruct Hi as [_ Hmin]. specialize (Hmin j d' a' Hj). lra.
      * apply Rltb_false in Hdm. exists i.
        apply first_nearest_at_snoc_keep; [easy|].
        intros d' a' [= <- <-]. exact Hdm.
    + exists i. now apply first_nearest_at_snoc_keep.
  - rewrite nearer_None_l. destruct c as [[d a]|].
    + exists (length l). apply first_nearest_at_snoc_new.
      intros j d' a' Hj. apply nth_error_In in Hj. now apply IH in Hj.
    + intros c Hc. apply in_app_or in Hc as [Hc | [<- | []]]; auto.
Qed.
End FirstNearestFacts.

(** ** Cube.intersect *)

Lemma within_face_iff (self : Cube) (n p : vec) :
  within_face self n p = true <-> face_bound self n p.
Proof.
  unfold within_face, all_le, face_bound, vabs, vsub, vadd, vdivs, vmuls; simpl.
  rewrite !andb_true_iff, !Rleb_true. tauto.
Qed.

Lemma face_step_cand (self : Cube) (o d : vec) held (plane : Plane) :
  face_step self o d (face_scan_of held) plane =
  face_scan_of (nearer held (face_cand self o d plane)).
Proof.
  unfold face_step, face_cand.
  destruct (Plane_intersect plane o d) as [[[dist n] p]|]; [|easy].
  destruct (within_face self n p); [|easy].
  destruct held as [[m [n' p']]|]; simpl; [|easy].
  now destruct (Rltb dist m).
Qed.

Lemma fold_face_step (self : Cube) (o d : vec) (l : list Plane) held :
  fold_left (face_step self o d) l (face_scan_of held) =
  face_scan_of (fold_left nearer (map (face_cand self o d) l) held).
Proof.
  revert held. induction l as [|plane l IH]; intros held; [easy|].
  simpl. now rewrite face_step_cand, IH.
Qed.

Lemma Cube_intersect_nearer (self : Cube) (o d : vec) :
  Cube_intersect self o d =
  match fold_left nearer (map (face_cand self o d) (planes self)) None with
  | Some (dist, (n, _)) => (Some dist, Some n)
  | None => (None, None)
  end.
Proof.
  unfold Cube_intersect.
  change (mkFaceScan Inf None None) with (face_scan_of None).
  rewrite fold_face_step.
  now destruct (fold_left nearer _ None) as [[dist [n p]]|].
Qed.

Lemma face_cand_Some (self : Cube) (o d : vec) (plane : Plane) dist n p :
  face_cand self o d plane = Some (dist, (n, p)) <->
  Plane_intersect plane o d = Some (dist, n, p) /\ face_bound self n p.
Proof.
  unfold face_cand. rewrite <- within_face_iff.
  destruct (Plane_intersect plane o d) as [[[dist' n'] p']|]; [|easy].
  destruct (within_face self n' p') eqn:Hw; split.
  - intros [= <- <- <-]. easy.
  - now intros [[= <- <- <-] _].
  - easy.
  - intros [[= <- <- <-] Hw']. congruence.
Qed.

Lemma planes_Cube_init (c : vec) (s : R) (col : vec) :
  planes (Cube_init c s col) =
  map (fun n => mkPlane (vadd c (smulv (s / 2) n)) n col) axis_normals.
Proof. reflexivity. Qed.

Lemma Plane_intersect_Some (self : Plane) (o d : vec) t n p :
  Plane_intersect self o d = Some (t, n, p) ->
  1 / 1000000 <= Rabs (dot d (normal self)) /\
  t = dot (vsub (point self) o) (normal self) / dot d (normal self) /\
  0 <= t /\ n = normal self /\ p = vadd o (vmuls d t).
Proof.
  unfold Plane_intersect.
  destruct (Rltb (Rabs _) _) eqn:Hd; [easy|].
  destruct (Rltb (_ / _) 0) eqn:Ht; [easy|].
  apply Rltb_false in Hd, Ht. intros [= <- <- <-]. easy.
Qed.

(** The divisor of [Plane.intersect] is not zero when the division is reached. *)
Lemma Plane_intersect_divisor (self : Plane) (o d : vec) :
  Rltb (Rabs (dot d (normal self))) (1 / 1000000) = false -> dot d (normal self) <> 0.
Proof.
  intros Hd%Rltb_false Hz. rewrite Hz, Rabs_R0 in Hd. lra.
Qed.

(** The result of [Cube.intersect], for any list of planes. *)
Lemma Cube_intersect_cases (self : Cube) (o d : vec) :
  match Cube_intersect self o d with
  | (None, None) =>
      forall plane dist n p, In plane (planes self) ->
        Plane_intersect plane o d = Some (dist, n, p) -> ~ face_bound self n p
  | (Some dist, Some n) =>
      exists i plane p,
        nth_error (planes self) i = Some plane /\
        Plane_intersect plane o d = Some (dist, n, p) /\
        face_bound self n p /\
        forall j plane' dist' n' p',
          nth_error (planes self) j = Some plane' ->
          Plane_intersect plane' o d = Some (dist', n', p') ->
          face_bound self n' p' ->
          dist <= dist' /\ ((j < i)%nat -> dist < dist')
  | _ => False
  end.
Proof.
  rewrite Cube_intersect_nearer.
  pose proof (fold_nearer_spec (map (face_cand self o d) (planes self))) as Hs.
  destruct (fold_left nearer _ None) as [[dist [n p]]|].
  - destruct Hs as [i [Hi Hmin]].
    rewrite nth_error_map in Hi.
    destruct (nth_error (planes self) i) as [plane|] eqn:Hpl; [|easy].
    injection Hi as Hi. apply face_cand_Some in Hi as [Hi Hb].
    exists i, plane, p. split; [easy|]. split; [easy|]. split; [easy|].
    intros j plane' dist' n' p' Hj Hp' Hb'.
    apply (Hmin j dist' (n', p')). rewrite nth_error_map, Hj.
    simpl. f_equal. now apply face_cand_Some.
  - intros plane dist n p Hin Hp Hb.
    assert (Hc : face_cand self o d plane = Some (dist, (n, p))) by now apply face_cand_Some.
    specialize (Hs (face_cand self o d plane) (in_map _ _ _ Hin)). congruence.
Qed.

Lemma normal_of_plane_Cube_init (c : vec) (s : R) (col : vec) (plane : Plane) :
  In plane (planes (Cube_init c s col)) -> In (normal plane) axis_normals.
Proof.
  rewrite planes_Cube_init. intros Hin. apply in_map_iff in Hin as [n [<- Hn]]. exact Hn.
Qed.

(** C2.  [Cube.intersect] runs [Plane.intersect] on the six face planes of
    the cube, one per axis direction [n], through [center + (side/2) * n].
    A plane hit counts only when [|p - (center + n * side / 2)| <= side / 2]
    holds on the three axes.  The result is [(None, None)] when no plane has
    a hit that counts; otherwise it is the distance and the normal of a
    face whose hit counts and is no farther than any other that counts (the
    first such face in the order of [self.planes]). *)
Theorem Cube_intersect_spec (c : vec) (s : R) (col : vec) (o d : vec) :
  let self := Cube_init c s col in
  planes self = map (fun n => mkPlane (vadd c (smulv (s / 2) n)) n col) axis_normals /\
  match Cube_intersect self o d with
  | (None, None) =>
      forall plane dist n p, In plane (planes self) ->
        Plane_intersect plane o d = Some (dist, n, p) -> ~ face_bound self n p
  | (Some dist, Some n) =>
      exists i plane p,
        nth_error (planes self) i = Some plane /\
        Plane_intersect plane o d = Some (dist, n, p) /\
        n = normal plane /\
        face_bound self n p /\
        forall j plane' dist' n' p',
          nth_error (planes self) j = Some plane' ->
          Plane_intersect plane' o d = Some (dist', n', p') ->
          face_bound self n' p' ->
          dist <= dist' /\ ((j < i)%nat -> dist < dist')
  | _ => False
  end.
Proof.
  intros self. split; [apply planes_Cube_init|].
  pose proof (Cube_intersect_cases self o d) as Hc.
  destruct (Cube_intersect self o d) as [[dist|] [n|]]; try easy.
  destruct Hc as (i & plane & p & Hi & Hp & Hb & Hmin).
  exists i, plane, p. repeat (split; [easy|]). split; [|easy].
  now apply Plane_intersect_Some in Hp.
Qed.

(** C9.  [Cube.intersect] returns [(None, None)], or a distance together
    with a normal: never one without the other.  The distance is not
    negative and the normal is one of the six axis directions, that of the
    face plane that was hit. *)
Theorem Cube_intersect_shape (c : vec) (s : R) (col : vec) (o d : vec) :
  match Cube_intersect (Cube_init c s col) o d with
  | (None, None) => True
  | (Some dist, Some n) =>
      0 <= dist /\ In n axis_normals /\
      exists plane p, In plane (planes (Cube_init c s col)) /\ n = normal plane /\
        Plane_intersect plane o d = Some (dist, n, p)
  | _ => False
  end.
Proof.
  pose proof (Cube_intersect_cases (Cube_init c s col) o d) as Hc.
  destruct (Cube_intersect (Cube_init c s col) o d) as [[dist|] [n|]]; try easy.
  destruct Hc as (i & plane & p & Hi & Hp & _).
  apply nth_error_In in Hi.
  pose proof (Plane_intersect_Some _ _ _ _ _ _ Hp) as (_ & _ & Hpos & Hn & _).
  split; [easy|]. split.
  - rewrite Hn. now apply (normal_of_plane_Cube_init c s col).
  - now exists plane, p.
Qed.

(** ** The face test against the exact one *)

(** A hit of [Plane.intersect] lies on the plane. *)
Lemma Plane_intersect_on_plane (self : Plane) (o d : vec) t n p :
  Plane_intersect self o d = Some (t, n, p) ->
  dot (vsub p (point self)) (normal self) = 0.
Proof.
  intros Hp. pose proof (Plane_intersect_Some _ _ _ _ _ _ Hp) as (Hd & Ht & _ & _ & ->).
  assert (Hz : dot d (normal self) <> 0).
  { intros Hz. rewrite Hz, Rabs_R0 in Hd. lra. }
  rewrite Ht. unfold dot, vsub, vadd, vmuls in *; simpl in *. field. exact Hz.
Qed.

Lemma Rleb_Rabs_0 (a s : R) : a = 0 -> Rleb (Rabs a) s = Rleb 0 s.
Proof. intros ->. now rewrite Rabs_R0. Qed.

Lemma Rleb_ext (a b s : R) : a = b -> Rleb (Rabs a) s = Rleb (Rabs b) s.
Proof. now intros ->. Qed.

Lemma Rleb_0_absorb (a s : R) (b : bool) :
  Rleb 0 s && Rleb (Rabs a) s && b = Rleb (Rabs a) s && b.
Proof.
  destruct (Rleb (Rabs a) s) eqn:Ha; [|now rewrite andb_false_r].
  apply Rleb_true in Ha. pose proof (Rabs_pos a).
  assert (H0 : Rleb 0 s = true) by (apply Rleb_true; lra). now rewrite H0.
Qed.

(** In exact arithmetic the face test of [Cube.intersect] decides as the
    exact test of the face does: the hit lies on the plane, so its
    coordinate along the normal is that of [center + n * side / 2], and on
    the two other axes that point has the coordinates of the centre.  On
    floats the hit can be off the plane and the two tests part:
    [F64Facts]. *)
Lemma within_face_exact (c : vec) (s : R) (col : vec) (o d : vec) (plane : Plane) dist n p :
  In plane (planes (Cube_init c s col)) ->
  Plane_intersect plane o d = Some (dist, n, p) ->
  within_face (Cube_init c s col) n p = aabb_face_test (Cube_init c s col) n p.
Proof.
  intros Hin Hp.
  pose proof (Plane_intersect_on_plane _ _ _ _ _ _ Hp) as Hon.
  pose proof (Plane_intersect_Some _ _ _ _ _ _ Hp) as (_ & _ & _ & -> & _).
  destruct c as [cx cy cz], p as [px py pz].
  unfold within_face, aabb_face_test, aabb_axis, all_le, vabs, vsub, vadd, vdivs, vmuls.
  rewrite planes_Cube_init in Hin. simpl in Hin.
  unfold dot, vsub, vadd, smulv in Hon.
  destruct Hin as [<-|[<-|[<-|[<-|[<-|[<-|[]]]]]]]; simpl in *;
    repeat match goal with
      | |- context [Req_dec_T ?a 0] => destruct (Req_dec_T a 0); try lra
      end.
  - rewrite (Rleb_Rabs_0 (px - _)) by lra.
    rewrite (Rleb_ext (py - _) (py - cy)) by lra.
    rewrite (Rleb_ext (pz - _) (pz - cz)) by lra.
    apply Rleb_0_absorb.
  - rewrite (Rleb_Rabs_0 (px - _)) by lra.
    rewrite (Rleb_ext (py - _) (py - cy)) by lra.
    rewrite (Rleb_ext (pz - _) (pz - cz)) by lra.
    apply Rleb_0_absorb.
  - rewrite (Rleb_Rabs_0 (py - _)) by lra.
    rewrite (Rleb_ext (px - _) (px - cx)) by lra.
    rewrite (Rleb_ext (pz - _) (pz - cz)) by lra.
    rewrite (andb_comm (Rleb (Rabs (px - cx)) _) (Rleb 0 _)).
    rewrite andb_true_r. apply Rleb_0_absorb.
  - rewrite (Rleb_Rabs_0 (py - _)) by lra.
    rewrite (Rleb_ext (px - _) (px - cx)) by lra.
    rewrite (Rleb_ext (pz - _) (pz - cz)) by lra.
    rewrite (andb_comm (Rleb (Rabs (px - cx)) _) (Rleb 0 _)).
    rewrite andb_true_r. apply Rleb_0_absorb.
  - rewrite (Rleb_Rabs_0 (pz - _)) by lra.
    rewrite (Rleb_ext (px - _) (px - cx)) by lra.
    rewrite (Rleb_ext (py - _) (py - cy)) by lra.
    rewrite andb_true_r, andb_comm, andb_assoc. apply Rleb_0_absorb.
  - rewrite (Rleb_Rabs_0 (pz - _)) by lra.
    rewrite (Rleb_ext (px - _) (px - cx)) by lra.
    rewrite (Rleb_ext (py - _) (py - cy)) by lra.
    rewrite andb_true_r, andb_comm, andb_assoc. apply Rleb_0_absorb.
Qed.

Lemma Plane_intersect_hit (self : Plane) (o d : vec) (t : R) :
  1 / 1000000 <= Rabs (dot d (normal self)) ->
  t = dot (vsub (point self) o) (normal self) / dot d (normal self) ->
  0 <= t ->
  Plane_intersect self o d = Some (t, normal self, vadd o (vmuls d t)).
Proof.
  intros Hd -> Ht. unfold Plane_intersect.
  apply Rltb_false in Hd, Ht. now rewrite Hd, Ht.
Qed.


(** ** compute_lighting *)

Lemma dot_self_nonneg (a : vec) : 0 <= dot a a.
Proof. unfold dot. nra. Qed.

Lemma dot_self_eq_0 (a : vec) : dot a a = 0 <-> a = mkvec 0 0 0.
Proof.
  destruct a as [x y z]. unfold dot; simpl. split.
  - intros Hz. assert (x = 0) by nra. assert (y = 0) by nra. assert (z = 0) by nra.
    now subst.
  - intros [= -> -> ->]. ring.
Qed.

Lemma norm_eq_0 (a : vec) : norm a = 0 <-> a = mkvec 0 0 0.
Proof.
  unfold norm. rewrite <- dot_self_eq_0. split.
  - apply sqrt_eq_0, dot_self_nonneg.
  - intros ->. apply sqrt_0.
Qed.

Lemma norm_nonneg (a : vec) : 0 <= norm a.
Proof. apply sqrt_pos. Qed.

Lemma norm_sqr (a : vec) : norm a * norm a = dot a a.
Proof. apply sqrt_sqrt, dot_self_nonneg. Qed.

Lemma vsub_eq_0 (a b : vec) : vsub a b = mkvec 0 0 0 <-> b = a.
Proof.
  destruct a as [ax ay az], b as [bx b_y bz]. unfold vsub; simpl. split.
  - intros [= Hx Hy Hz]. f_equal; lra.
  - intros [= -> -> ->]. f_equal; ring.
Qed.

(** The divisor of [compute_lighting] is zero for one point only. *)
Lemma light_dir_norm_0 (point : vec) (scene_light : Light) :
  norm (vsub (position scene_light) point) = 0 <-> point = position scene_light.
Proof. now rewrite norm_eq_0, vsub_eq_0. Qed.

Lemma div_by_norm_None (a : vec) : div_by_norm a = None <-> norm a = 0.
Proof. unfold div_by_norm. now destruct (Req_dec_T (norm a) 0). Qed.

Lemma div_by_norm_Some (a : vec) :
  norm a <> 0 -> div_by_norm a = Some (vdivs a (norm a)).
Proof. unfold div_by_norm. now destruct (Req_dec_T (norm a) 0). Qed.

Lemma cauchy_schwarz (a b : vec) : dot a b * dot a b <= dot a a * dot b b.
Proof.
  destruct a as [ax ay az], b as [bx b_y bz]. unfold dot; simpl.
  assert (Hid : (ax * ax + ay * ay + az * az) * (bx * bx + b_y * b_y + bz * bz)
                - (ax * bx + ay * b_y + az * bz) * (ax * bx + ay * b_y + az * bz)
                = (ax * b_y - ay * bx) * (ax * b_y - ay * bx)
                  + (ax * bz - az * bx) * (ax * bz - az * bx)
                  + (ay * bz - az * b_y) * (ay * bz - az * b_y)) by ring.
  pose proof (Rle_0_sqr (ax * b_y - ay * bx)) as H1.
  pose proof (Rle_0_sqr (ax * bz - az * bx)) as H2.
  pose proof (Rle_0_sqr (ay * bz - az * b_y)) as H3.
  unfold Rsqr in *. lra.
Qed.

Lemma dot_vdivs_l (a b : vec) (k : R) : dot (vdivs a k) b = dot a b / k.
Proof. unfold dot, vdivs; simpl. unfold Rdiv. ring. Qed.

(** The cosine of two directions is at most one. *)
Lemma dot_unit_le_1 (a n : vec) :
  norm a <> 0 -> norm n = 1 -> dot (vdivs a (norm a)) n <= 1.
Proof.
  intros Ha Hn. rewrite dot_vdivs_l.
  pose proof (norm_nonneg a) as Hpos.
  pose proof (norm_sqr a) as Hsq.
  pose proof (norm_sqr n) as Hsn. rewrite Hn in Hsn.
  pose proof (cauchy_schwarz a n) as Hcs. rewrite <- Hsn, <- Hsq in Hcs.
  assert (Hlt : 0 < norm a) by lra.
  apply (Rmult_le_reg_r (norm a)); [easy|].
  unfold Rdiv. rewrite Rmult_assoc, Rinv_l by easy.
  rewrite Rmult_1_r, Rmult_1_l. nra.
Qed.

Lemma pymax_0_bounds (a : R) : a <= 1 -> 0 <= pymax a 0 <= 1.
Proof.
  intros Ha. unfold pymax. destruct (Rltb a 0) eqn:H0.
  - lra.
  - apply Rltb_false in H0. lra.
Qed.

Lemma compute_lighting_NaN (point normal : vec) (scene_light : Light) :
  point = position scene_light -> compute_lighting point normal scene_light = NaN.
Proof.
  intros Hp. unfold compute_lighting.
  replace (div_by_norm _) with (@None vec); [easy|].
  symmetry. now apply div_by_norm_None, light_dir_norm_0.
Qed.


Lemma inv_pow10 (n : nat) : 0 < / 10 ^ n <= 1 /\ 1 <= 10 ^ n.
Proof.
  assert (H1 : 1 <= 10 ^ n) by (apply pow_R1_Rle; lra).
  assert (Hpos : 0 < / 10 ^ n) by (apply Rinv_0_lt_compat; lra).
  repeat split; try easy.
  rewrite <- Rinv_1. apply Rinv_le_contravar; lra.
Qed.

Lemma in_norm_range_nonzero (v : vec) : in_norm_range v -> norm v <> 0.
Proof. intros [Hlo _]. pose proof (inv_pow10 150) as ((Hpos & _) & _). lra. Qed.

Lemma in_norm_range_intro (v : vec) : 1 <= norm v <= 10 -> in_norm_range v.
Proof.
  intros Hv. pose proof (inv_pow10 150) as ((_ & Hlo) & _).
  pose proof (inv_pow10 149) as (_ & Hhi).
  unfold in_norm_range. change (10 ^ 150) with (10 * 10 ^ 149) at 2. lra.
Qed.

Lemma norm_along_z (c : R) : 0 <= c -> norm (mkvec 0 0 c) = c.
Proof.
  intros Hc. unfold norm, dot; simpl.
  replace (0 * 0 + 0 * 0 + c * c) with (c * c) by ring. now apply sqrt_square.
Qed.

(** C6, for a point whose distance to the light is in the range of
    float64.  For a unit normal and a light whose intensity is not
    negative, the value of [compute_lighting] lies between 0 and the
    intensity, and with the ambient term between 0 and the intensity plus
    0.1. *)
Theorem compute_lighting_bounds (point normal : vec) (scene_light : Light) :
  in_norm_range (vsub (position scene_light) point) ->
  norm normal = 1 ->
  0 <= intensity scene_light ->
  exists r : R,
    compute_lighting point normal scene_light = Num r /\
    0 <= r <= intensity scene_light /\
    flt_add (compute_lighting point normal scene_light) ambient_light = Num (r + 1 / 10) /\
    0 <= r + 1 / 10 <= intensity scene_light + 1 / 10.
Proof.
  intros Hz%in_norm_range_nonzero Hn Hi.
  unfold compute_lighting. rewrite div_by_norm_Some by easy.
  pose proof (pymax_0_bounds _ (dot_unit_le_1 _ normal Hz Hn)) as Hm.
  eexists. split; [reflexivity|]. split; [nra|]. split; [reflexivity|]. nra.
Qed.

(** C6, as stated, fails at the light: there the value is nan, which is no
    number of the interval.  The normal is the one of a front face.  (On
    floats it fails as well for a point so close to the light that the sum
    of squares underflows: [F64Facts.lighting_underflow].) *)
Lemma compute_lighting_at_light :
  let point := mkvec 0 0 (-4) in
  let normal := mkvec 0 0 1 in
  let scene_light := mkLight (mkvec 0 0 (-4)) (3 / 2) in
  In normal axis_normals /\ norm normal = 1 /\ 0 <= intensity scene_light /\
  compute_lighting point normal scene_light = NaN /\
  ~ exists r : R,
      compute_lighting point normal scene_light = Num r /\ 0 <= r <= intensity scene_light.
Proof.
  intros point normal scene_light.
  assert (Hnan : compute_lighting point normal scene_light = NaN).
  { now apply compute_lighting_NaN. }
  split; [simpl; tauto|]. split.
  - unfold norm, dot; simpl. replace (0 * 0 + 0 * 0 + 1 * 1) with 1 by ring. apply sqrt_1.
  - split; [simpl; lra|]. split; [exact Hnan|].
    intros [r [Hr _]]. congruence.
Qed.

Lemma compute_lighting_bounds_witness :
  exists r : R,
    compute_lighting (mkvec 0 0 (-4)) (mkvec 0 0 1) (mkLight (mkvec 0 0 0) (3 / 2)) = Num r /\
    0 <= r <= 3 / 2 /\
    flt_add (compute_lighting (mkvec 0 0 (-4)) (mkvec 0 0 1) (mkLight (mkvec 0 0 0) (3 / 2)))
      ambient_light = Num (r + 1 / 10) /\
    0 <= r + 1 / 10 <= 3 / 2 + 1 / 10.
Proof.
  apply (compute_lighting_bounds (mkvec 0 0 (-4)) (mkvec 0 0 1) (mkLight (mkvec 0 0 0) (3 / 2))).
  - apply in_norm_range_intro. unfold vsub; simpl.
    replace (0 - 0) with 0 by ring. rewrite norm_along_z; lra.
  - unfold norm, dot; simpl. replace (0 * 0 + 0 * 0 + 1 * 1) with 1 by ring. apply sqrt_1.
  - simpl. lra.
Defined.

(** ** ray_from_camera *)

(** The divisor of [ray_from_camera] is not zero. *)
Lemma ray_direction_norm (pixel_x pixel_y : R) : 1 <= norm (mkvec pixel_x pixel_y (-1)).
Proof.
  unfold norm. rewrite <- sqrt_1 at 1. apply sqrt_le_1_alt.
  unfold dot; simpl. nra.
Qed.

Lemma ray_from_camera_Ret (camera_position : vec) (x y image_width image_height : Z) (fov : R) :
  image_width <> 0%Z -> image_height <> 0%Z ->
  exists direction,
    ray_from_camera camera_position x y image_width image_height fov =
      Ret (camera_position, direction).
Proof.
  intros Hw Hh. unfold ray_from_camera.
  apply Z.eqb_neq in Hw, Hh. rewrite Hw, Hh.
  rewrite div_by_norm_Some; [eauto|].
  match goal with |- norm (mkvec ?a ?b _) <> 0 => pose proof (ray_direction_norm a b) end.
  lra.
Qed.

(** A zero width or height makes [ray_from_camera] raise. *)
Lemma ray_from_camera_zero (camera_position : vec) (x y image_width image_height : Z) (fov : R) :
  image_width = 0%Z \/ image_height = 0%Z ->
  ray_from_camera camera_position x y image_width image_height fov = Raise ZeroDivisionError.
Proof.
  unfold ray_from_camera. intros [-> | ->].
  - now destruct (image_height =? 0)%Z.
  - reflexivity.
Qed.

Lemma ray_from_camera_value (camera_position : vec) (x y image_width image_height : Z)
  (fov : R) :
  image_width <> 0%Z -> image_height <> 0%Z ->
  let half_fov_radians := fov / 2 * (PI / 180) in
  let ndc_x := (2 * (IZR x + 1 / 2) / IZR image_width - 1)
               * (IZR image_width / IZR image_height) * tan half_fov_radians in
  let ndc_y := (1 - 2 * (IZR y + 1 / 2) / IZR image_height) * tan half_fov_radians in
  let v := mkvec ndc_x ndc_y (-1) in
  ray_from_camera camera_position x y image_width image_height fov =
    Ret (camera_position, vdivs v (norm v)).
Proof.
  intros Hw Hh half_fov_radians ndc_x ndc_y v.
  assert (Hv : norm v <> 0) by (pose proof (ray_direction_norm ndc_x ndc_y); unfold v; lra).
  unfold ray_from_camera. apply Z.eqb_neq in Hw, Hh. rewrite Hw, Hh.
  replace (fov * (1 / 2) * PI / 180) with half_fov_radians by (unfold half_fov_radians; field).
  fold ndc_x ndc_y v. now rewrite div_by_norm_Some.
Qed.

(** C5.  Whenever [ray_from_camera] returns a ray for the pixel [(x, y)],
    the ray starts at the camera position and its direction is
    [(ndc_x, ndc_y, -1)] divided by its norm, which is not zero, with
    [ndc_x = (2 (x + 0.5) / width - 1) (width / height) tan(fov / 2 in radians)]
    and [ndc_y = (1 - 2 (y + 0.5) / height) tan(fov / 2 in radians)].  It
    returns that ray for every width and height other than zero, and raises
    [ZeroDivisionError] when one of them is zero. *)
Theorem ray_from_camera_spec (camera_position : vec) (x y image_width image_height : Z)
  (fov : R) :
  let half_fov_radians := fov / 2 * (PI / 180) in
  let ndc_x := (2 * (IZR x + 1 / 2) / IZR image_width - 1)
               * (IZR image_width / IZR image_height) * tan half_fov_radians in
  let ndc_y := (1 - 2 * (IZR y + 1 / 2) / IZR image_height) * tan half_fov_radians in
  let v := mkvec ndc_x ndc_y (-1) in
  norm v <> 0 /\
  (forall origin direction,
     ray_from_camera camera_position x y image_width image_height fov = Ret (origin, direction) ->
     origin = camera_position /\ direction = vdivs v (norm v)) /\
  (image_width <> 0%Z -> image_height <> 0%Z ->
   ray_from_camera camera_position x y image_width image_height fov =
     Ret (camera_position, vdivs v (norm v))) /\
  (image_width = 0%Z \/ image_height = 0%Z ->
   ray_from_camera camera_position x y image_width image_height fov = Raise ZeroDivisionError).
Proof.
  intros half_fov_radians ndc_x ndc_y v.
  split; [pose proof (ray_direction_norm ndc_x ndc_y); unfold v; lra|].
  split; [|split].
  - intros origin direction Hray.
    destruct (Z.eq_dec image_width 0) as [Hw|Hw];
      [rewrite ray_from_camera_zero in Hray by tauto; discriminate|].
    destruct (Z.eq_dec image_height 0) as [Hh|Hh];
      [rewrite ray_from_camera_zero in Hray by tauto; discriminate|].
    rewrite (ray_from_camera_value _ _ _ _ _ _ Hw Hh) in Hray.
    now injection Hray as <- <-.
  - apply ray_from_camera_value.
  - apply ray_from_camera_zero.
Qed.

(** The script's image, 800 by 600 with a field of view of 90 degrees: the
    ray of the top left pixel. *)
Example ray_script_top_left :
  exists direction,
    ray_from_camera (mkvec 22 (-2) 0) 0 0 800 600 90 = Ret (mkvec 22 (-2) 0, direction).
Proof. eexists. apply ray_from_camera_value; lia. Qed.

(** ** The loop of [render] over the scene *)

Section SceneFacts.
Context {Obj : Type} `{Intersectable Obj}.

Lemma scan_obj_holds (o d : vec) img hn held (fr : frame) (obj : Obj) :
  frame_holds img hn held fr ->
  frame_holds img hn (nearer held (scene_cand o d obj)) (scan_obj o d fr obj).
Proof.
  intros [Himg Hheld]. unfold scan_obj, scene_cand.
  destruct (intersect obj o d) as [[dd|] normal]; [|now split].
  destruct held as [[m [obj' normal']]|]; simpl.
  - destruct Hheld as (Hc & Hm & Hn). rewrite Hm; simpl.
    destruct (Rltb dd m); now split.
  - destruct Hheld as (Hc & Hm & Hn). rewrite Hm; simpl. now split.
Qed.

Lemma fold_scan_obj_holds (o d : vec) img hn (scene : list Obj) held (fr : frame) :
  frame_holds img hn held fr ->
  frame_holds img hn (fold_left nearer (map (scene_cand o d) scene) held)
    (fold_left (scan_obj o d) scene fr).
Proof.
  revert held fr. induction scene as [|obj scene IH]; intros held fr Hfr; [easy|].
  simpl. now apply IH, scan_obj_holds.
Qed.

Lemma resolve_holds (scene : list Obj) (o d : vec) (fr : frame) :
  frame_holds (image fr) (hit_normal fr)
    (fold_left nearer (map (scene_cand o d) scene) None) (resolve scene o d fr).
Proof. apply fold_scan_obj_holds. now split. Qed.

Lemma scene_cand_Some (o d : vec) (obj obj' : Obj) dd normal :
  scene_cand o d obj = Some (dd, (obj', normal)) <->
  obj' = obj /\ intersect obj o d = (Some dd, normal).
Proof.
  unfold scene_cand. destruct (intersect obj o d) as [[dd'|] normal']; split.
  - now intros [= <- <- <-].
  - now intros [-> [= <- <-]].
  - easy.
  - now intros [_ [=]].
Qed.

Lemma scene_cand_None (o d : vec) (obj : Obj) :
  scene_cand o d obj = None <-> fst (intersect obj o d) = None.
Proof. unfold scene_cand. now destruct (intersect obj o d) as [[dd|] normal]. Qed.

(** The first nearest candidate of the scene, in terms of the objects. *)
Lemma first_nearest_scene (scene : list Obj) (o d : vec) i dd obj normal :
  first_nearest_at (map (scene_cand o d) scene) i dd (obj, normal) ->
  nth_error scene i = Some obj /\
  intersect obj o d = (Some dd, normal) /\
  forall j obj' d', nth_error scene j = Some obj' ->
    fst (intersect obj' o d) = Some d' -> dd <= d' /\ ((j < i)%nat -> dd < d').
Proof.
  intros [Hi Hmin]. rewrite nth_error_map in Hi.
  destruct (nth_error scene i) as [obj0|] eqn:Hobj; [|easy].
  injection Hi as Hi. apply scene_cand_Some in Hi as [-> Hi].
  split; [reflexivity|]. split; [exact Hi|].
  intros j obj' d' Hj Hd'.
  apply (Hmin j d' (obj', snd (intersect obj' o d))).
  rewrite nth_error_map, Hj. simpl. f_equal. apply scene_cand_Some.
  split; [easy|]. now destruct (intersect obj' o d); simpl in *; subst.
Qed.

(** C4.  The loop over the scene leaves in [closest_obj], [min_dist] and
    [hit_normal] the object of least distance with its distance and
    normal; among objects at that distance, the first of the scene.  It
    leaves [closest_obj] at [None] exactly when no object reports a
    distance. *)
Theorem resolve_spec (scene : list Obj) (origin direction : vec) (fr : frame) :
  match closest_obj (resolve scene origin direction fr) with
  | Some obj =>
      exists i d normal,
        nth_error scene i = Some obj /\
        intersect obj origin direction = (Some d, normal) /\
        min_dist (resolve scene origin direction fr) = Fin d /\
        hit_normal (resolve scene origin direction fr) = Some normal /\
        forall j obj' d', nth_error scene j = Some obj' ->
          fst (intersect obj' origin direction) = Some d' ->
          d <= d' /\ ((j < i)%nat -> d < d')
  | None =>
      forall obj, In obj scene -> fst (intersect obj origin direction) = None
  end.
Proof.
  pose proof (resolve_holds scene origin direction fr) as [_ Hh].
  pose proof (fold_nearer_spec (map (scene_cand origin direction) scene)) as Hs.
  destruct (fold_left nearer _ None) as [[d [obj normal]]|].
  - destruct Hh as (-> & Hm & Hn). destruct Hs as [i Hi].
    apply first_nearest_scene in Hi as (Hi & Hint & Hmin).
    now exists i, d, normal.
  - destruct Hh as (-> & _ & _). intros obj Hin.
    apply scene_cand_None, Hs. now apply in_map.
Qed.
End SceneFacts.

(** ** The image *)

Lemma nth_error_list_set_eq {A : Type} (l : list A) (i : nat) (a : A) :
  (i < length l)%nat -> nth_error (list_set l i a) i = Some a.
Proof.
  revert i. induction l as [|b l IH]; intros [|i] Hi; simpl in *; try lia; [easy|].
  apply IH. lia.
Qed.

Lemma nth_error_list_set_ne {A : Type} (l : list A) (i j : nat) (a : A) :
  i <> j -> nth_error (list_set l i a) j = nth_error l j.
Proof.
  revert i j. induction l as [|b l IH]; intros [|i] [|j] Hij; simpl; try easy.
  apply IH. lia.
Qed.

Lemma get_set_same (img : image_t) (y x : Z) (u v : pixel) :
  get_pixel img y x = Some u -> get_pixel (set_pixel img y x v) y x = Some v.
Proof.
  unfold get_pixel, set_pixel.
  destruct (nth_error img (Z.to_nat y)) as [row|] eqn:Hrow; [|easy].
  intros Hu. rewrite nth_error_list_set_eq.
  - apply nth_error_list_set_eq. apply nth_error_Some. congruence.
  - apply nth_error_Some. congruence.
Qed.

Lemma get_set_other (img : image_t) (y x y' x' : Z) (v : pixel) :
  (0 <= y)%Z -> (0 <= x)%Z -> (0 <= y')%Z -> (0 <= x')%Z ->
  (y, x) <> (y', x') ->
  get_pixel (set_pixel img y' x' v) y x = get_pixel img y x.
Proof.
  intros Hy Hx Hy' Hx' Hne. unfold get_pixel, set_pixel.
  destruct (nth_error img (Z.to_nat y')) as [row'|] eqn:Hrow'; [|easy].
  destruct (Z.eq_dec y y') as [->|Hyy].
  - rewrite nth_error_list_set_eq by (apply nth_error_Some; congruence).
    rewrite Hrow'. apply nth_error_list_set_ne.
    intros Hxx. apply Hne. f_equal. lia.
  - rewrite nth_error_list_set_ne by lia. reflexivity.
Qed.

Lemma get_zeros (image_height image_width y x : Z) :
  (0 <= y < image_height)%Z -> (0 <= x < image_width)%Z ->
  get_pixel (zeros image_height image_width) y x = Some (RGB (mkvec 0 0 0)).
Proof.
  intros Hy Hx. unfold get_pixel, zeros.
  rewrite nth_error_repeat by lia. apply nth_error_repeat. lia.
Qed.

Lemma In_range (n k : Z) : In k (range n) <-> (0 <= k < n)%Z.
Proof.
  unfold range. rewrite in_map_iff. split.
  - intros [i [<- Hi]]. apply in_seq in Hi. lia.
  - intros Hk. exists (Z.to_nat k). split; [lia|]. apply in_seq. lia.
Qed.

Lemma In_pixels (image_width image_height y x : Z) :
  In (y, x) (pixels image_width image_height) <->
  (0 <= y < image_height)%Z /\ (0 <= x < image_width)%Z.
Proof.
  unfold pixels. rewrite in_flat_map. split.
  - intros [y' [Hy Hin]]. apply in_map_iff in Hin as [x' [[= <- <-] Hx]].
    now rewrite In_range in Hy, Hx.
  - intros [Hy Hx]. exists y. rewrite In_range. split; [easy|].
    apply in_map, In_range, Hx.
Qed.

(** ** The loops of [render] *)

Lemma for_each_image {Obj A : Type} (l : list A) (body : @frame Obj -> A -> outcome frame)
  (step : image_t -> A -> image_t) :
  (forall fr a, In a l -> exists fr', body fr a = Ret fr' /\ image fr' = step (image fr) a) ->
  forall fr, exists fr', for_each l body fr = Ret fr' /\ image fr' = fold_left step l (image fr).
Proof.
  induction l as [|a l IH]; intros Hbody fr; simpl.
  - now exists fr.
  - destruct (Hbody fr a (or_introl eq_refl)) as (fr1 & -> & Himg). simpl.
    destruct (IH (fun fr a Ha => Hbody fr a (or_intror Ha)) fr1) as (fr2 & -> & Himg2).
    exists fr2. now rewrite Himg2, Himg.
Qed.

Lemma fold_left_pixels {I : Type} (f : I -> Z * Z -> I) (ys xs : list Z) (img : I) :
  fold_left (fun img y => fold_left (fun img x => f img (y, x)) xs img) ys img =
  fold_left f (flat_map (fun y => map (pair y) xs) ys) img.
Proof.
  revert img. induction ys as [|y ys IH]; intros img; [easy|].
  simpl. rewrite fold_left_app, IH. f_equal.
  clear. revert img. induction xs as [|x xs IHx]; intros img; [easy|]. simpl. apply IHx.
Qed.

Section RenderFacts.
Context {Obj : Type} `{Intersectable Obj}.
Variables (scene : list Obj) (scene_light : Light) (camera_position : vec).
Variables (image_width image_height : Z) (fov : R).

(** The objects of the scene return a normal with every distance. *)
Hypothesis normals : forall obj o d dd normal,
  In obj scene -> intersect obj o d = (Some dd, normal) -> normal <> None.

Abbreviation pixel_write' := (pixel_write scene scene_light camera_position image_width image_height fov).
Abbreviation pixel_of' := (pixel_of scene scene_light camera_position image_width image_height fov).
Abbreviation paint' := (paint scene scene_light camera_position image_width image_height fov).
Abbreviation render_pixel' :=
  (render_pixel scene scene_light camera_position image_width image_height fov).

(** One run of the body of the loops returns, and changes the image as
    [paint] does, whatever the frame holds. *)
Lemma render_pixel_paint (y x : Z) (fr : frame) :
  image_width <> 0%Z -> image_height <> 0%Z ->
  exists fr', render_pixel' y fr x = Ret fr' /\ image fr' = paint' (image fr) (y, x).
Proof.
  intros Hw Hh. unfold render_pixel, paint, pixel_write; simpl.
  destruct (ray_from_camera_Ret camera_position x y _ _ fov Hw Hh) as [d ->]. simpl.
  pose proof (resolve_holds scene camera_position d fr) as [Himg Hh'].
  pose proof (fold_nearer_spec (map (scene_cand camera_position d) scene)) as Hs.
  destruct (fold_left nearer _ None) as [[dd [obj normal]]|].
  - destruct Hh' as (-> & Hm & Hn). destruct Hs as [i Hi].
    apply first_nearest_scene in Hi as (Hi & Hint & _).
    apply nth_error_In in Hi. specialize (normals _ _ _ _ _ Hi Hint).
    destruct normal as [n|]; [|easy].
    unfold shade. rewrite Hm, Hn. eexists. split; [reflexivity|].
    simpl. now rewrite Himg.
  - destruct Hh' as (-> & _ & _). now eexists.
Qed.

Lemma paint_other (img : image_t) (c : Z * Z) (y x : Z) :
  (0 <= fst c)%Z -> (0 <= snd c)%Z -> (0 <= y)%Z -> (0 <= x)%Z -> c <> (y, x) ->
  get_pixel (paint' img c) y x = get_pixel img y x.
Proof.
  intros Hc1 Hc2 Hy Hx Hne. unfold paint.
  destruct (pixel_write' (fst c) (snd c)); [|easy].
  apply get_set_other; try easy. destruct c. simpl. congruence.
Qed.

Lemma paint_same (img : image_t) (y x : Z) (u : pixel) :
  get_pixel img y x = Some u ->
  get_pixel (paint' img (y, x)) y x =
    Some (match pixel_write' y x with Some v => v | None => u end).
Proof.
  intros Hu. unfold paint; simpl.
  destruct (pixel_write' y x); [|easy]. now apply (get_set_same _ _ _ u).
Qed.

Lemma coord_eq_dec (c c' : Z * Z) : {c = c'} + {c <> c'}.
Proof. decide equality; apply Z.eq_dec. Qed.

(** A pixel that holds its value keeps it through any further runs. *)
Lemma fold_paint_keep (l : list (Z * Z)) (img : image_t) (y x : Z) (v : pixel) :
  (forall c, In c l -> (0 <= fst c)%Z /\ (0 <= snd c)%Z) ->
  (0 <= y)%Z -> (0 <= x)%Z ->
  get_pixel img y x = Some v ->
  (v = pixel_of' y x \/ ~ In (y, x) l) ->
  get_pixel (fold_left paint' l img) y x = Some v.
Proof.
  revert img. induction l as [|c l IH]; intros img Hl Hy Hx Hv Hcase; [easy|].
  simpl. apply IH; try easy.
  - intros c' Hc'. apply Hl. now right.
  - destruct (coord_eq_dec c (y, x)) as [->|Hne].
    + rewrite (paint_same _ _ _ v Hv).
      destruct Hcase as [-> | Hnin]; [|exfalso; apply Hnin; now left].
      unfold pixel_of. now destruct (pixel_write' y x).
    + destruct (Hl c (or_introl eq_refl)). now rewrite paint_other.
  - destruct Hcase as [-> | Hnin]; [now left | right].
    intros Hin. apply Hnin. now right.
Qed.

(** After the runs of [l], a pixel of [l] that was black holds
    [pixel_of]. *)
Lemma fold_paint_pixel (l : list (Z * Z)) (img : image_t) (y x : Z) :
  (forall c, In c l -> (0 <= fst c)%Z /\ (0 <= snd c)%Z) ->
  In (y, x) l ->
  get_pixel img y x = Some (RGB (mkvec 0 0 0)) ->
  get_pixel (fold_left paint' l img) y x = Some (pixel_of' y x).
Proof.
  revert img. induction l as [|c l IH]; intros img Hl Hin Hb; [easy|].
  destruct (Hl (y, x) Hin) as [Hy Hx]. simpl in Hy, Hx.
  simpl. destruct (coord_eq_dec c (y, x)) as [->|Hne].
  - apply fold_paint_keep; try easy.
    + intros c' Hc'. apply Hl. now right.
    + rewrite (paint_same _ _ _ _ Hb). unfold pixel_of.
      now destruct (pixel_write' y x).
    + now left.
  - destruct Hin as [-> | Hin]; [easy|].
    apply IH; try easy.
    + intros c' Hc'. apply Hl. now right.
    + destruct (Hl c (or_introl eq_refl)). now rewrite paint_other.
Qed.

(** [render] returns for every scene, light and camera, on every image
    size that is not negative: no division by zero, no variable read
    before it is bound, no normal that is [None], nothing out of the
    model. *)
Lemma render_returns :
  (0 <= image_width)%Z -> (0 <= image_height)%Z ->
  render scene scene_light camera_position image_width image_height fov =
    Ret (fold_left paint' (pixels image_width image_height) (zeros image_height image_width)).
Proof.
  intros Hw Hh. unfold render.
  apply Z.ltb_ge in Hw, Hh. rewrite Hw, Hh. simpl.
  apply Z.ltb_ge in Hw, Hh.
  edestruct (for_each_image (Obj:=Obj) (range image_height)
               (fun fr y => for_each (range image_width) (render_pixel' y) fr)
               (fun img y => fold_left (fun img x => paint' img (y, x)) (range image_width) img))
    as (fr' & -> & Himg).
  - intros fr y Hy%In_range.
    apply (for_each_image (range image_width) (render_pixel' y)
             (fun img x => paint' img (y, x))).
    intros fr0 x Hx%In_range. apply render_pixel_paint; lia.
  - simpl. rewrite Himg. simpl. now rewrite fold_left_pixels.
Qed.

Lemma render_pixel_of (y x : Z) :
  (0 <= y < image_height)%Z -> (0 <= x < image_width)%Z ->
  exists img,
    render scene scene_light camera_position image_width image_height fov = Ret img /\
    get_pixel img y x = Some (pixel_of' y x).
Proof.
  intros Hy Hx. rewrite render_returns by lia. eexists. split; [reflexivity|].
  apply fold_paint_pixel.
  - intros [y' x'] Hc%In_pixels. simpl. lia.
  - now apply In_pixels.
  - now apply get_zeros.
Qed.

(** The pixel in terms of the ray and of the nearest object. *)
Lemma pixel_of_cases (y x : Z) :
  image_width <> 0%Z -> image_height <> 0%Z ->
  exists origin direction,
    ray_from_camera camera_position x y image_width image_height fov = Ret (origin, direction) /\
    ((exists i obj d n,
        nth_error scene i = Some obj /\
        intersect obj origin direction = (Some d, Some n) /\
        (forall j obj' d', nth_error scene j = Some obj' ->
           fst (intersect obj' origin direction) = Some d' ->
           d <= d' /\ ((j < i)%nat -> d < d')) /\
        pixel_write' y x =
          Some (clipped_color (obj_color obj)
                  (flt_add (compute_lighting (vadd origin (smulv d direction)) n scene_light)
                     ambient_light))) \/
     ((forall obj, In obj scene -> fst (intersect obj origin direction) = None) /\
      pixel_write' y x = None)).
Proof.
  intros Hw Hh. unfold pixel_write.
  destruct (ray_from_camera_Ret camera_position x y _ _ fov Hw Hh) as [d ->].
  exists camera_position, d. split; [easy|].
  pose proof (fold_nearer_spec (map (scene_cand camera_position d) scene)) as Hs.
  destruct (fold_left nearer _ None) as [[dd [obj normal]]|].
  - destruct Hs as [i Hi]. apply first_nearest_scene in Hi as (Hi & Hint & Hmin).
    pose proof (normals _ _ _ _ _ (nth_error_In _ _ Hi) Hint) as Hn.
    destruct normal as [n|]; [|easy].
    left. now exists i, obj, dd, n.
  - right. split; [|easy]. intros obj Hin.
    apply scene_cand_None, Hs. now apply in_map.
Qed.
End RenderFacts.

Lemma render_negative {Obj : Type} `{Intersectable Obj} (scene : list Obj) (scene_light : Light)
  (camera_position : vec) (image_width image_height : Z) (fov : R) :
  (image_width < 0)%Z \/ (image_height < 0)%Z ->
  render scene scene_light camera_position image_width image_height fov = Raise ValueError.
Proof.
  intros Hneg. unfold render.
  replace ((image_height <? 0)%Z || (image_width <? 0)%Z) with true; [easy|].
  symmetry. apply orb_true_iff. rewrite !Z.ltb_lt. tauto.
Qed.

(** A cube returns a normal with every distance. *)
Lemma Cube_normals (obj : Cube) (o d : vec) dd normal :
  intersect obj o d = (Some dd, normal) -> normal <> None.
Proof.
  simpl. intros Hint. pose proof (Cube_intersect_cases obj o d) as Hc.
  rewrite Hint in Hc. now destruct normal.
Qed.

(** ** render on a scene of cubes *)

Lemma clip01_spec (a : R) :
  0 <= clip01 a <= 1 /\
  (a <= 0 -> clip01 a = 0) /\ (0 <= a <= 1 -> clip01 a = a) /\ (1 <= a -> clip01 a = 1).
Proof.
  unfold clip01, Rmin, Rmax.
  destruct (Rle_dec a 0); destruct (Rle_dec _ 1); repeat split; intros; lra.
Qed.

(** C1.  For every pixel of the image, [render] returns an image whose
    pixel [image[y, x]] is, with the ray of that pixel from
    [ray_from_camera]: when some cube is hit, the colour of the nearest cube
    (the first of the scene among the nearest), each channel multiplied by
    the value of [compute_lighting] at [origin + distance * direction] plus
    0.1 and then brought into [0, 1], [min(max(c, 0), 1)] (three nan when
    [compute_lighting] is nan); when no cube is hit, black. *)
Theorem render_pixel_value (scene : list Cube) (scene_light : Light) (camera_position : vec)
  (image_width image_height : Z) (fov : R) (y x : Z) :
  (0 <= y < image_height)%Z -> (0 <= x < image_width)%Z ->
  exists img origin direction,
    render scene scene_light camera_position image_width image_height fov = Ret img /\
    ray_from_camera camera_position x y image_width image_height fov = Ret (origin, direction) /\
    ((exists i obj d n,
        nth_error scene i = Some obj /\
        Cube_intersect obj origin direction = (Some d, Some n) /\
        (forall j obj' d', nth_error scene j = Some obj' ->
           fst (Cube_intersect obj' origin direction) = Some d' ->
           d <= d' /\ ((j < i)%nat -> d < d')) /\
        get_pixel img y x =
          Some (match compute_lighting (vadd origin (smulv d direction)) n scene_light with
                | Num l =>
                    RGB (mkvec (Rmin (Rmax (vx (color obj) * (l + 1 / 10)) 0) 1)
                               (Rmin (Rmax (vy (color obj) * (l + 1 / 10)) 0) 1)
                               (Rmin (Rmax (vz (color obj) * (l + 1 / 10)) 0) 1))
                | NaN => NaNs
                end)) \/
     ((forall obj, In obj scene -> fst (Cube_intersect obj origin direction) = None) /\
      get_pixel img y x = Some (RGB (mkvec 0 0 0)))).
Proof.
  intros Hy Hx.
  assert (Hn : forall (obj : Cube) o d dd normal,
             In obj scene -> intersect obj o d = (Some dd, normal) -> normal <> None).
  { intros obj o d dd normal _. apply Cube_normals. }
  destruct (render_pixel_of scene scene_light camera_position image_width image_height fov
              Hn y x Hy Hx) as (img & Hr & Hpx).
  destruct (pixel_of_cases scene scene_light camera_position image_width image_height fov
              Hn y x) as (origin & direction & Hray & Hcases); try lia.
  exists img, origin, direction. split; [easy|]. split; [easy|].
  unfold pixel_of in Hpx.
  destruct Hcases as [(i & obj & d & n & Hi & Hint & Hmin & Hw) | [Hnone Hw]];
    rewrite Hw in Hpx.
  - left. exists i, obj, d, n. repeat (split; [easy|]).
    rewrite Hpx. now destruct (compute_lighting _ n scene_light).
  - now right.
Qed.

(** C7.  A run of the body of the loops at [(y, x)] returns whatever the
    frame holds of earlier pixels (the hit counter, the last normal, the
    image so far); it leaves in [image[y, x]] a value that depends on the
    frame through the former [image[y, x]] only, and it leaves every other
    pixel as it was.  The pixel of the image that [render] returns is
    [pixel_of], a function of the scene, the light, the camera, the image
    size, the field of view and the pixel's own coordinates; and [render],
    a function of its arguments, gives one image for them. *)
Theorem render_pixels_independent (scene : list Cube) (scene_light : Light)
  (camera_position : vec) (image_width image_height : Z) (fov : R) (y x : Z) :
  (0 <= y < image_height)%Z -> (0 <= x < image_width)%Z ->
  (forall fr : frame,
     exists fr',
       render_pixel scene scene_light camera_position image_width image_height fov y fr x
         = Ret fr' /\
       (forall u, get_pixel (image fr) y x = Some u ->
          get_pixel (image fr') y x =
            Some (match pixel_write scene scene_light camera_position
                          image_width image_height fov y x with
                  | Some v => v
                  | None => u
                  end)) /\
       (forall y' x', (0 <= y')%Z -> (0 <= x')%Z -> (y', x') <> (y, x) ->
          get_pixel (image fr') y' x' = get_pixel (image fr) y' x')) /\
  (exists img,
     render scene scene_light camera_position image_width image_height fov = Ret img /\
     get_pixel img y x =
       Some (pixel_of scene scene_light camera_position image_width image_height fov y x)) /\
  (forall img1 img2,
     render scene scene_light camera_position image_width image_height fov = Ret img1 ->
     render scene scene_light camera_position image_width image_height fov = Ret img2 ->
     img1 = img2).
Proof.
  intros Hy Hx.
  assert (Hn : forall (obj : Cube) o d dd normal,
             In obj scene -> intersect obj o d = (Some dd, normal) -> normal <> None).
  { intros obj o d dd normal _. apply Cube_normals. }
  split; [|split].
  - intros fr.
    destruct (render_pixel_paint scene scene_light camera_position image_width image_height
                fov Hn y x fr) as (fr' & Hr & Himg); try lia.
    exists fr'. split; [easy|]. rewrite Himg. split.
    + intros u Hu. now apply paint_same.
    + intros y' x' Hy' Hx' Hne. apply paint_other; simpl; try lia. congruence.
  - now apply render_pixel_of.
  - intros img1 img2 H1 H2. congruence.
Qed.

Lemma render_pixel_value_witness :
  exists img origin direction,
    render [Cube_init (mkvec 0 0 (-5)) 2 (mkvec 0 1 0)] (mkLight (mkvec (-3) (-4) (-10)) (3 / 2))
      (mkvec 22 (-2) 0) 800 600 90 = Ret img /\
    ray_from_camera (mkvec 22 (-2) 0) 0 0 800 600 90 = Ret (origin, direction) /\
    ((exists i obj d n,
        nth_error [Cube_init (mkvec 0 0 (-5)) 2 (mkvec 0 1 0)] i = Some obj /\
        Cube_intersect obj origin direction = (Some d, Some n) /\
        (forall j obj' d',
           nth_error [Cube_init (mkvec 0 0 (-5)) 2 (mkvec 0 1 0)] j = Some obj' ->
           fst (Cube_intersect obj' origin direction) = Some d' ->
           d <= d' /\ ((j < i)%nat -> d < d')) /\
        get_pixel img 0 0 =
          Some (match compute_lighting (vadd origin (smulv d direction)) n
                        (mkLight (mkvec (-3) (-4) (-10)) (3 / 2)) with
                | Num l =>
                    RGB (mkvec (Rmin (Rmax (vx (color obj) * (l + 1 / 10)) 0) 1)
                               (Rmin (Rmax (vy (color obj) * (l + 1 / 10)) 0) 1)
                               (Rmin (Rmax (vz (color obj) * (l + 1 / 10)) 0) 1))
                | NaN => NaNs
                end)) \/
     ((forall obj, In obj [Cube_init (mkvec 0 0 (-5)) 2 (mkvec 0 1 0)] ->
         fst (Cube_intersect obj origin direction) = None) /\
      get_pixel img 0 0 = Some (RGB (mkvec 0 0 0)))).
Proof.
  apply (render_pixel_value [Cube_init (mkvec 0 0 (-5)) 2 (mkvec 0 1 0)]
           (mkLight (mkvec (-3) (-4) (-10)) (3 / 2)) (mkvec 22 (-2) 0) 800 600 90 0 0); lia.
Defined.

Lemma render_pixels_independent_witness :
  let scene := [Cube_init (mkvec 0 0 (-5)) 2 (mkvec 0 1 0)] in
  let scene_light := mkLight (mkvec (-3) (-4) (-10)) (3 / 2) in
  let camera_position := mkvec 22 (-2) 0 in
  (forall fr : frame,
     exists fr',
       render_pixel scene scene_light camera_position 800 600 90 7 fr 5 = Ret fr' /\
       (forall u, get_pixel (image fr) 7 5 = Some u ->
          get_pixel (image fr') 7 5 =
            Some (match pixel_write scene scene_light camera_position 800 600 90 7 5 with
                  | Some v => v
                  | None => u
                  end)) /\
       (forall y' x', (0 <= y')%Z -> (0 <= x')%Z -> (y', x') <> (7, 5)%Z ->
          get_pixel (image fr') y' x' = get_pixel (image fr) y' x')) /\
  (exists img,
     render scene scene_light camera_position 800 600 90 = Ret img /\
     get_pixel img 7 5 = Some (pixel_of scene scene_light camera_position 800 600 90 7 5)) /\
  (forall img1 img2,
     render scene scene_light camera_position 800 600 90 = Ret img1 ->
     render scene scene_light camera_position 800 600 90 = Ret img2 ->
     img1 = img2).
Proof.
  intros scene scene_light camera_position.
  apply (render_pixels_independent scene scene_light camera_position 800 600 90 7 5); lia.
Defined.

(** ** The script's cube, seen from the origin down the z axis

    The ray from [(0, 0, 0)] along [(0, 0, -1)] is parallel to four faces of
    the cube of centre [(0, 0, -5)] and side 2, meets the front face
    [z = -4] at distance 4 and the back face [z = -6] at distance 6. *)

Lemma face_cand_parallel (self : Cube) (o d : vec) (plane : Plane) :
  Rabs (dot d (normal plane)) < 1 / 1000000 -> face_cand self o d plane = None.
Proof.
  intros Hd%Rltb_true. unfold face_cand, Plane_intersect. now rewrite Hd.
Qed.

Lemma face_cand_hit (self : Cube) (o d : vec) (plane : Plane) (t : R) :
  1 / 1000000 <= Rabs (dot d (normal plane)) ->
  t = dot (vsub (point plane) o) (normal plane) / dot d (normal plane) ->
  0 <= t ->
  face_bound self (normal plane) (vadd o (vmuls d t)) ->
  face_cand self o d plane = Some (t, (normal plane, vadd o (vmuls d t))).
Proof.
  intros Hd Ht Hpos Hb. apply face_cand_Some. split; [|easy].
  now apply Plane_intersect_hit.
Qed.

Example script_cube_front (col : vec) :
  Cube_intersect (Cube_init (mkvec 0 0 (-5)) 2 col) (mkvec 0 0 0) (mkvec 0 0 (-1)) =
    (Some 4, Some (mkvec 0 0 1)).
Proof.
  rewrite Cube_intersect_nearer, planes_Cube_init. unfold axis_normals. simpl map.
  rewrite !face_cand_parallel
    by (unfold dot; simpl;
        match goal with |- Rabs ?a < _ => replace a with 0 by ring end;
        rewrite Rabs_R0; lra).
  rewrite (face_cand_hit _ _ _ _ 4); cycle 1.
  { unfold dot; simpl. rewrite Rabs_left; lra. }
  { unfold dot, vsub, vadd, smulv; simpl. field. }
  { lra. }
  { unfold face_bound, vadd, vmuls; simpl. repeat split; apply Rabs_le; lra. }
  rewrite (face_cand_hit _ _ _ _ 6); cycle 1.
  { unfold dot; simpl. rewrite Rabs_right; lra. }
  { unfold dot, vsub, vadd, smulv; simpl. field. }
  { lra. }
  { unfold face_bound, vadd, vmuls; simpl. repeat split; apply Rabs_le; lra. }
  simpl. replace (Rltb 6 4) with false by (symmetry; apply Rltb_false; lra).
  reflexivity.
Qed.

(** The ray of the only pixel of a 1 x 1 image runs down the z axis. *)
Example ray_1x1 (camera_position : vec) (fov : R) :
  ray_from_camera camera_position 0 0 1 1 fov = Ret (camera_position, mkvec 0 0 (-1)).
Proof.
  unfold ray_from_camera. simpl Z.eqb. cbv iota.
  match goal with |- context [div_by_norm ?v] =>
    assert (Hv : v = mkvec 0 0 (-1)) by (f_equal; field) end.
  rewrite Hv.
  assert (Hn : norm (mkvec 0 0 (-1)) = 1).
  { unfold norm, dot; simpl. replace (0 * 0 + 0 * 0 + -1 * -1) with 1 by ring. apply sqrt_1. }
  rewrite div_by_norm_Some by (rewrite Hn; lra).
  unfold vdivs. rewrite Hn. simpl. do 2 f_equal. f_equal; field.
Qed.

(** Two cubes at the same place: the first of the scene is the closest. *)
Example first_of_two_wins (fr : frame) :
  let red := Cube_init (mkvec 0 0 (-5)) 2 (mkvec 1 0 0) in
  let green := Cube_init (mkvec 0 0 (-5)) 2 (mkvec 0 1 0) in
  closest_obj (resolve [red; green] (mkvec 0 0 0) (mkvec 0 0 (-1)) fr) = Some red /\
  closest_obj (resolve [green; red] (mkvec 0 0 0) (mkvec 0 0 (-1)) fr) = Some green.
Proof.
  intros red green.
  assert (H44 : Rltb 4 4 = false) by (apply Rltb_false; lra).
  split.
  - unfold resolve. simpl fold_left. unfold scan_obj at 2. simpl intersect.
    unfold red at 1. rewrite script_cube_front. simpl.
    unfold scan_obj. simpl intersect. unfold green at 1. rewrite script_cube_front.
    simpl. now rewrite H44.
  - unfold resolve. simpl fold_left. unfold scan_obj at 2. simpl intersect.
    unfold green at 1. rewrite script_cube_front. simpl.
    unfold scan_obj. simpl intersect. unfold red at 1. rewrite script_cube_front.
    simpl. now rewrite H44.
Qed.

(** With the light on the front face, where the ray of the only pixel hits
    it, [render] returns the image of one pixel of three nan. *)
Example render_nan_pixel :
  render [Cube_init (mkvec 0 0 (-5)) 2 (mkvec 0 1 0)] (mkLight (mkvec 0 0 (-4)) (3 / 2))
    (mkvec 0 0 0) 1 1 90 = Ret [[NaNs]].
Proof.
  rewrite render_returns; try lia.
  2:{ intros obj o d dd normal _. apply Cube_normals. }
  f_equal. change (pixels 1 1) with [(0, 0)%Z]. change (zeros 1 1) with [[RGB (mkvec 0 0 0)]].
  simpl fold_left. unfold paint, pixel_write. simpl fst. simpl snd.
  rewrite ray_1x1. simpl map. unfold scene_cand. simpl intersect.
  rewrite script_cube_front. simpl fold_left. cbv beta iota.
  replace (compute_lighting _ _ _) with NaN; [reflexivity|].
  symmetry. apply compute_lighting_NaN. unfold vadd, smulv; simpl. f_equal; ring.
Qed.

(** ** Where the hits are *)

Ltac split_Rabs :=
  unfold Rabs in *;
  repeat match goal with
    | H : context [Rcase_abs ?a] |- _ => destruct (Rcase_abs a)
    | |- context [Rcase_abs ?a] => destruct (Rcase_abs a)
    end.

(** A hit of [Cube.intersect] lies on the surface of the cube. *)
Lemma Cube_hit_in_box (c : vec) (s : R) (col : vec) (o d : vec) (dist : R) (n : vec) :
  Cube_intersect (Cube_init c s col) o d = (Some dist, Some n) ->
  let p := vadd o (vmuls d dist) in
  0 <= dist /\ 0 <= s /\
  Rabs (vx p - vx c) <= s / 2 /\ Rabs (vy p - vy c) <= s / 2 /\ Rabs (vz p - vz c) <= s / 2 /\
  dot (vsub p c) n = s / 2.
Proof.
  intros Hint p.
  pose proof (Cube_intersect_cases (Cube_init c s col) o d) as Hc. rewrite Hint in Hc.
  destruct Hc as (i & plane & p' & Hi & Hp & Hb & _).
  apply nth_error_In in Hi.
  pose proof (Plane_intersect_on_plane _ _ _ _ _ _ Hp) as Hon.
  pose proof (Plane_intersect_Some _ _ _ _ _ _ Hp) as (_ & _ & Hpos & -> & ->).
  fold p in Hb, Hon. clearbody p. clear Hp Hint.
  destruct c as [cx cy cz], p as [px py pz].
  rewrite planes_Cube_init in Hi. simpl in Hi.
  unfold face_bound, dot, vsub, vadd, smulv in *.
  destruct Hi as [<-|[<-|[<-|[<-|[<-|[<-|[]]]]]]]; simpl in *;
    destruct Hb as (Hbx & Hby & Hbz);
    (split; [exact Hpos|]); split_Rabs; repeat split; lra.
Qed.

Lemma Cube_intersect_None_or_hit (self : Cube) (o d : vec) :
  Cube_intersect self o d = (None, None) \/
  exists dist n, Cube_intersect self o d = (Some dist, Some n).
Proof.
  pose proof (Cube_intersect_cases self o d) as Hc.
  destruct (Cube_intersect self o d) as [[dist|] [n|]]; try easy; [right | left]; eauto.
Qed.

(** X3.  A ray that starts beyond a face of the cube and does not head back
    along that axis misses the cube. *)
Theorem Cube_miss_heading_away (c : vec) (s : R) (col : vec) (o d : vec) :
  heads_away c s o d -> Cube_intersect (Cube_init c s col) o d = (None, None).
Proof.
  intros Haway.
  destruct (Cube_intersect_None_or_hit (Cube_init c s col) o d) as [Hn | (dist & n & Hhit)];
    [exact Hn | exfalso].
  apply Cube_hit_in_box in Hhit as (Hpos & Hs & Hx & Hy & Hz & _).
  unfold heads_away in Haway. unfold vadd, vmuls in *; simpl in *.
  split_Rabs; nra.
Qed.

Lemma Cube_miss_heading_away_witness :
  Cube_intersect (Cube_init (mkvec 0 0 (-5)) 2 (mkvec 0 1 0)) (mkvec 0 0 0) (mkvec 0 0 1)
    = (None, None).
Proof.
  apply Cube_miss_heading_away. unfold heads_away; simpl.
  do 4 right. left. lra.
Defined.

(** X4.  A cube of negative side is never hit.  The side is at most
    -1e-300, so that its half is a negative float and not the zero that the
    half of the least float underflows to. *)
Theorem Cube_negative_side (c : vec) (s : R) (col : vec) (o d : vec) :
  s <= - / 10 ^ 300 -> Cube_intersect (Cube_init c s col) o d = (None, None).
Proof.
  intros Hs. pose proof (inv_pow10 300) as ((Hpos & _) & _).
  destruct (Cube_intersect_None_or_hit (Cube_init c s col) o d) as [Hn | (dist & n & Hhit)];
    [exact Hn | exfalso].
  apply Cube_hit_in_box in Hhit as (_ & Hs' & _). lra.
Qed.

Lemma Cube_negative_side_witness :
  Cube_intersect (Cube_init (mkvec 0 0 (-5)) (-2) (mkvec 0 1 0)) (mkvec 0 0 0) (mkvec 0 0 (-1))
    = (None, None).
Proof.
  apply Cube_negative_side. pose proof (inv_pow10 300) as ((_ & Hle) & _). lra.
Defined.


(** ** More on ray_from_camera *)

Lemma norm_vdivs_norm (a : vec) : norm a <> 0 -> norm (vdivs a (norm a)) = 1.
Proof.
  intros Ha. unfold norm at 1.
  replace (dot (vdivs a (norm a)) (vdivs a (norm a))) with 1; [apply sqrt_1|].
  unfold dot, vdivs; simpl.
  pose proof (norm_sqr a) as Hsq. unfold dot in Hsq.
  symmetry. apply (Rmult_eq_reg_r (norm a * norm a)); [|nra].
  rewrite Rmult_1_l.
  transitivity (vx a * vx a + vy a * vy a + vz a * vz a); [field; exact Ha | now symmetry].
Qed.

Lemma ray_from_camera_inv (camera_position : vec) (x y image_width image_height : Z)
  (fov : R) (origin direction : vec) :
  ray_from_camera camera_position x y image_width image_height fov = Ret (origin, direction) ->
  image_width <> 0%Z /\ image_height <> 0%Z /\ origin = camera_position /\
  exists pixel_x pixel_y,
    direction = vdivs (mkvec pixel_x pixel_y (-1)) (norm (mkvec pixel_x pixel_y (-1))).
Proof.
  intros Hray.
  destruct (Z.eq_dec image_width 0) as [Hw|Hw];
    [rewrite ray_from_camera_zero in Hray by tauto; discriminate|].
  destruct (Z.eq_dec image_height 0) as [Hh|Hh];
    [rewrite ray_from_camera_zero in Hray by tauto; discriminate|].
  rewrite (ray_from_camera_value _ _ _ _ _ _ Hw Hh) in Hray.
  injection Hray as <- <-. repeat split; try easy. eauto.
Qed.

(** X6.  Every ray that [ray_from_camera] returns has a direction of norm
    one that points into the scene: its z component is negative. *)
Theorem ray_direction_unit (camera_position : vec) (x y image_width image_height : Z)
  (fov : R) (origin direction : vec) :
  ray_from_camera camera_position x y image_width image_height fov = Ret (origin, direction) ->
  norm direction = 1 /\ vz direction < 0.
Proof.
  intros Hray. apply ray_from_camera_inv in Hray as (_ & _ & _ & px & py & ->).
  pose proof (ray_direction_norm px py) as Hn. split.
  - apply norm_vdivs_norm. lra.
  - unfold vdivs; simpl. unfold Rdiv.
    assert (0 < / norm (mkvec px py (-1))) by (apply Rinv_0_lt_compat; lra). nra.
Qed.

Lemma ray_direction_unit_witness :
  norm (mkvec 0 0 (-1)) = 1 /\ vz (mkvec 0 0 (-1)) < 0.
Proof.
  apply (ray_direction_unit (mkvec 0 0 0) 0 0 1 1 90 (mkvec 0 0 0) (mkvec 0 0 (-1))).
  apply ray_1x1.
Defined.

Lemma norm_flip_x (a b c : R) : norm (mkvec (- a) b c) = norm (mkvec a b c).
Proof. unfold norm, dot; simpl. f_equal. ring. Qed.

Lemma norm_flip_y (a b c : R) : norm (mkvec a (- b) c) = norm (mkvec a b c).
Proof. unfold norm, dot; simpl. f_equal. ring. Qed.

(** X7.  The rays of an image are mirror images of each other: the pixel
    at the same distance from the right edge has the direction with the x
    component negated, the pixel at the same distance from the bottom edge
    the direction with the y component negated. *)
Theorem ray_mirror (camera_position : vec) (x y image_width image_height : Z) (fov : R) :
  image_width <> 0%Z -> image_height <> 0%Z ->
  exists dx dy dz,
    ray_from_camera camera_position x y image_width image_height fov
      = Ret (camera_position, mkvec dx dy dz) /\
    ray_from_camera camera_position (image_width - 1 - x) y image_width image_height fov
      = Ret (camera_position, mkvec (- dx) dy dz) /\
    ray_from_camera camera_position x (image_height - 1 - y) image_width image_height fov
      = Ret (camera_position, mkvec dx (- dy) dz).
Proof.
  intros Hw Hh.
  assert (HW : IZR image_width <> 0) by now apply not_0_IZR.
  assert (HH : IZR image_height <> 0) by now apply not_0_IZR.
  rewrite !ray_from_camera_value by easy. cbv zeta.
  set (s := tan (fov / 2 * (PI / 180))).
  set (px := (2 * (IZR x + 1 / 2) / IZR image_width - 1)
             * (IZR image_width / IZR image_height) * s).
  set (py := (1 - 2 * (IZR y + 1 / 2) / IZR image_height) * s).
  replace ((2 * (IZR (image_width - 1 - x) + 1 / 2) / IZR image_width - 1)
           * (IZR image_width / IZR image_height) * s) with (- px)
    by (unfold px; rewrite !minus_IZR; field; easy).
  replace ((1 - 2 * (IZR (image_height - 1 - y) + 1 / 2) / IZR image_height) * s) with (- py)
    by (unfold py; rewrite !minus_IZR; field; easy).
  rewrite norm_flip_x, norm_flip_y.
  exists (px / norm (mkvec px py (-1))), (py / norm (mkvec px py (-1))),
         (-1 / norm (mkvec px py (-1))).
  unfold vdivs; simpl. repeat split; do 2 f_equal; f_equal; unfold Rdiv; ring.
Qed.

Lemma ray_mirror_witness :
  exists dx dy dz,
    ray_from_camera (mkvec 22 (-2) 0) 10 20 800 600 90 = Ret (mkvec 22 (-2) 0, mkvec dx dy dz) /\
    ray_from_camera (mkvec 22 (-2) 0) (800 - 1 - 10) 20 800 600 90
      = Ret (mkvec 22 (-2) 0, mkvec (- dx) dy dz) /\
    ray_from_camera (mkvec 22 (-2) 0) 10 (600 - 1 - 20) 800 600 90
      = Ret (mkvec 22 (-2) 0, mkvec dx (- dy) dz).
Proof. apply (ray_mirror (mkvec 22 (-2) 0) 10 20 800 600 90); lia. Defined.

(** ** More on compute_lighting *)

Lemma norm_pos (a : vec) : norm a <> 0 -> 0 < norm a.
Proof. pose proof (norm_nonneg a). lra. Qed.

(** X8.  A surface that faces away from the light, or is edge-on to it,
    gets no light: for a unit normal and a point whose distance to the light
    is in the range of float64, [compute_lighting] is 0 there, whatever the
    intensity. *)
Theorem compute_lighting_facing_away (point normal : vec) (scene_light : Light) :
  in_norm_range (vsub (position scene_light) point) ->
  norm normal = 1 ->
  dot (vsub (position scene_light) point) normal <= 0 ->
  compute_lighting point normal scene_light = Num 0.
Proof.
  intros Hz%in_norm_range_nonzero _ Hdot.
  unfold compute_lighting. rewrite div_by_norm_Some by easy. f_equal.
  rewrite dot_vdivs_l.
  set (a := dot _ normal / _).
  assert (Ha : a <= 0).
  { unfold a, Rdiv. pose proof (Rinv_0_lt_compat _ (norm_pos _ Hz)). nra. }
  unfold pymax. destruct (Rltb a 0) eqn:Hlt; [ring|].
  apply Rltb_false in Hlt. replace a with 0 by lra. ring.
Qed.

Lemma compute_lighting_facing_away_witness :
  compute_lighting (mkvec 0 0 (-6)) (mkvec 0 0 (-1)) (mkLight (mkvec 0 0 0) (3 / 2)) = Num 0.
Proof.
  apply compute_lighting_facing_away.
  - apply in_norm_range_intro. unfold vsub; simpl.
    replace (0 - 0) with 0 by ring. rewrite norm_along_z; lra.
  - unfold norm, dot; simpl. replace (0 * 0 + 0 * 0 + -1 * -1) with 1 by ring. apply sqrt_1.
  - unfold dot, vsub; simpl. lra.
Defined.

Lemma dot_vdivs_self (a : vec) : norm a <> 0 -> dot (vdivs a (norm a)) (vdivs a (norm a)) = 1.
Proof.
  intros Ha. pose proof (norm_vdivs_norm a Ha) as Hn.
  pose proof (norm_sqr (vdivs a (norm a))) as Hsq. rewrite Hn in Hsq. lra.
Qed.

(** X10.  A surface whose normal points straight at the light gets the full
    intensity of the light, at every point whose distance to the light is
    in the range of float64. *)
Theorem compute_lighting_facing_light (point : vec) (scene_light : Light) :
  in_norm_range (vsub (position scene_light) point) ->
  let light_dir := vsub (position scene_light) point in
  compute_lighting point (vdivs light_dir (norm light_dir)) scene_light
    = Num (intensity scene_light).
Proof.
  intros Hz%in_norm_range_nonzero light_dir. fold light_dir in Hz.
  unfold compute_lighting. fold light_dir. rewrite div_by_norm_Some by easy.
  rewrite dot_vdivs_self by easy. f_equal.
  unfold pymax. replace (Rltb 1 0) with false by (symmetry; apply Rltb_false; lra). ring.
Qed.

Lemma compute_lighting_facing_light_witness :
  let light_dir := vsub (mkvec 0 0 0) (mkvec 0 0 (-4)) in
  compute_lighting (mkvec 0 0 (-4)) (vdivs light_dir (norm light_dir))
    (mkLight (mkvec 0 0 0) (3 / 2)) = Num (3 / 2).
Proof.
  apply (compute_lighting_facing_light (mkvec 0 0 (-4)) (mkLight (mkvec 0 0 0) (3 / 2))).
  apply in_norm_range_intro. unfold vsub; simpl.
  replace (0 - 0) with 0 by ring. rewrite norm_along_z; lra.
Defined.

(** ** Shape and content of the image of [render] *)

Lemma length_list_set {A : Type} (l : list A) (i : nat) (a : A) :
  length (list_set l i a) = length l.
Proof.
  revert i. induction l as [|b l IH]; intros [|i]; simpl; try easy. now rewrite IH.
Qed.

Lemma Forall_list_set {A : Type} (P : A -> Prop) (l : list A) (i : nat) (a : A) :
  Forall P l -> P a -> Forall P (list_set l i a).
Proof.
  intros Hl Ha. revert i. induction Hl as [|b l Hb Hl IH]; intros [|i]; simpl; auto.
Qed.

Lemma set_pixel_shape (img : image_t) (h w y x : Z) (v : pixel) :
  has_shape img h w -> has_shape (set_pixel img y x v) h w.
Proof.
  intros [Hlen Hrows]. unfold set_pixel.
  destruct (nth_error img (Z.to_nat y)) as [row|] eqn:Hrow; [|now split].
  split; [now rewrite length_list_set|].
  apply Forall_list_set; [easy|]. rewrite length_list_set.
  apply (proj1 (Forall_forall _ _) Hrows). now apply nth_error_In in Hrow.
Qed.

Lemma set_pixel_all (P : pixel -> Prop) (img : image_t) (y x : Z) (v : pixel) :
  image_all P img -> P v -> image_all P (set_pixel img y x v).
Proof.
  intros Himg Hv. unfold set_pixel.
  destruct (nth_error img (Z.to_nat y)) as [row|] eqn:Hrow; [|easy].
  apply Forall_list_set; [easy|]. apply Forall_list_set; [|easy].
  apply (proj1 (Forall_forall _ _) Himg). now apply nth_error_In in Hrow.
Qed.

Lemma zeros_shape (h w : Z) : has_shape (zeros h w) h w.
Proof.
  unfold zeros. split; [apply repeat_length|].
  apply Forall_forall. intros row ->%repeat_spec. apply repeat_length.
Qed.

Lemma zeros_all (P : pixel -> Prop) (h w : Z) :
  P (RGB (mkvec 0 0 0)) -> image_all P (zeros h w).
Proof.
  intros Hb. apply Forall_forall. intros row ->%repeat_spec.
  apply Forall_forall. now intros v ->%repeat_spec.
Qed.

Lemma get_pixel_all (P : pixel -> Prop) (img : image_t) (y x : Z) (v : pixel) :
  image_all P img -> get_pixel img y x = Some v -> P v.
Proof.
  intros Himg. unfold get_pixel.
  destruct (nth_error img (Z.to_nat y)) as [row|] eqn:Hrow; [|easy].
  intros Hv%nth_error_In. apply nth_error_In in Hrow.
  unfold image_all in Himg. rewrite Forall_forall in Himg.
  specialize (Himg row Hrow). rewrite Forall_forall in Himg. auto.
Qed.

Lemma clipped_color_in_range (col : vec) (k : flt) : pixel_in_range (clipped_color col k).
Proof.
  destruct k as [k|]; simpl; [|easy].
  repeat split; apply clip01_spec.
Qed.

Lemma clipped_color_channel_zero (col : vec) (k : flt) :
  (vx col = 0 -> channel_zero vx (clipped_color col k)) /\
  (vy col = 0 -> channel_zero vy (clipped_color col k)) /\
  (vz col = 0 -> channel_zero vz (clipped_color col k)).
Proof.
  destruct k as [k|]; simpl; [|easy].
  repeat split; intros ->; rewrite Rmult_0_l; apply clip01_spec; lra.
Qed.

Section ImageFacts.
Context {Obj : Type} `{Intersectable Obj}.
Variables (scene : list Obj) (scene_light : Light) (camera_position : vec).
Variables (image_width image_height : Z) (fov : R).

Abbreviation pixel_write'' :=
  (pixel_write scene scene_light camera_position image_width image_height fov).
Abbreviation paint'' := (paint scene scene_light camera_position image_width image_height fov).

(** What is written is the clipped colour of an object of the scene. *)
Lemma pixel_write_Some (y x : Z) (v : pixel) :
  pixel_write'' y x = Some v ->
  exists obj k, In obj scene /\ v = clipped_color (obj_color obj) k.
Proof.
  unfold pixel_write.
  destruct (ray_from_camera _ _ _ _ _ _) as [[o d]| |]; try easy.
  pose proof (fold_nearer_spec (map (scene_cand o d) scene)) as Hs.
  destruct (fold_left nearer _ None) as [[dd [obj [n|]]]|]; try easy.
  destruct Hs as [i Hi]. apply first_nearest_scene in Hi as (Hi%nth_error_In & _).
  intros [= <-]. eauto.
Qed.

Lemma fold_paint_shape (l : list (Z * Z)) (img : image_t) (h w : Z) :
  has_shape img h w -> has_shape (fold_left paint'' l img) h w.
Proof.
  revert img. induction l as [|c l IH]; intros img Himg; [easy|].
  simpl. apply IH. unfold paint.
  destruct (pixel_write'' (fst c) (snd c)); [now apply set_pixel_shape | easy].
Qed.

Lemma fold_paint_all (P : pixel -> Prop) (l : list (Z * Z)) (img : image_t) :
  (forall obj k, In obj scene -> P (clipped_color (obj_color obj) k)) ->
  image_all P img -> image_all P (fold_left paint'' l img).
Proof.
  intros HP. revert img. induction l as [|c l IH]; intros img Himg; [easy|].
  simpl. apply IH. unfold paint.
  destruct (pixel_write'' (fst c) (snd c)) as [v|] eqn:Hv; [|easy].
  apply set_pixel_all; [easy|].
  apply pixel_write_Some in Hv as (obj & k & Hin & ->). now apply HP.
Qed.

(** With nothing in the scene, nothing is painted. *)
Lemma fold_paint_nil (l : list (Z * Z)) (img : image_t) :
  scene = [] -> fold_left paint'' l img = img.
Proof.
  intros Hnil. induction l as [|c l IH]; [easy|].
  simpl. replace (paint'' img c) with img; [exact IH|].
  unfold paint. destruct (pixel_write'' (fst c) (snd c)) as [v|] eqn:Hv; [|easy].
  apply pixel_write_Some in Hv as (obj & _ & Hin & _). rewrite Hnil in Hin. easy.
Qed.
End ImageFacts.

Lemma render_cubes (scene : list Cube) (scene_light : Light) (camera_position : vec)
  (image_width image_height : Z) (fov : R) :
  (0 <= image_width)%Z -> (0 <= image_height)%Z ->
  render scene scene_light camera_position image_width image_height fov =
    Ret (fold_left (paint scene scene_light camera_position image_width image_height fov)
           (pixels image_width image_height) (zeros image_height image_width)).
Proof.
  apply render_returns. intros obj o d dd normal _. apply Cube_normals.
Qed.

Lemma render_cubes_inv (scene : list Cube) (scene_light : Light) (camera_position : vec)
  (image_width image_height : Z) (fov : R) (img : image_t) :
  render scene scene_light camera_position image_width image_height fov = Ret img ->
  (0 <= image_width)%Z /\ (0 <= image_height)%Z /\
  img = fold_left (paint scene scene_light camera_position image_width image_height fov)
          (pixels image_width image_height) (zeros image_height image_width).
Proof.
  intros Hr.
  destruct (Z.lt_ge_cases image_width 0) as [Hw|Hw];
    [rewrite render_negative in Hr by tauto; discriminate|].
  destruct (Z.lt_ge_cases image_height 0) as [Hh|Hh];
    [rewrite render_negative in Hr by tauto; discriminate|].
  rewrite render_cubes in Hr by easy. now injection Hr as <-.
Qed.

(** X11.  On a scene of cubes [render] raises [ValueError] when the width
    or the height is negative and raises nothing else; in every other case
    it returns an image of [image_height] rows of [image_width] pixels.  A
    width or height of zero gives an image without pixels, not a division
    by zero. *)
Theorem render_outcome (scene : list Cube) (scene_light : Light) (camera_position : vec)
  (image_width image_height : Z) (fov : R) :
  match render scene scene_light camera_position image_width image_height fov with
  | Ret img =>
      (0 <= image_width)%Z /\ (0 <= image_height)%Z /\ has_shape img image_height image_width
  | Raise e => e = ValueError /\ ((image_width < 0)%Z \/ (image_height < 0)%Z)
  | OutOfModel => False
  end.
Proof.
  destruct (Z.lt_ge_cases image_width 0) as [Hw|Hw];
    [rewrite render_negative by tauto; tauto|].
  destruct (Z.lt_ge_cases image_height 0) as [Hh|Hh];
    [rewrite render_negative by tauto; tauto|].
  rewrite render_cubes by easy. split; [easy|]. split; [easy|].
  apply fold_paint_shape, zeros_shape.
Qed.

(** X12.  Every pixel of the image that [render] returns on a scene of
    cubes is three floats between 0 and 1, or three nan. *)
Theorem render_pixels_in_range (scene : list Cube) (scene_light : Light)
  (camera_position : vec) (image_width image_height : Z) (fov : R)
  (img : image_t) (y x : Z) (v : pixel) :
  render scene scene_light camera_position image_width image_height fov = Ret img ->
  get_pixel img y x = Some v ->
  pixel_in_range v.
Proof.
  intros (_ & _ & ->)%render_cubes_inv. apply get_pixel_all.
  apply fold_paint_all.
  - intros obj k _. apply clipped_color_in_range.
  - apply zeros_all. simpl. lra.
Qed.

(** X13.  With no object in the scene, [render] returns the black image. *)
Theorem render_empty_scene (scene_light : Light) (camera_position : vec)
  (image_width image_height : Z) (fov : R) :
  (0 <= image_width)%Z -> (0 <= image_height)%Z ->
  render (@nil Cube) scene_light camera_position image_width image_height fov =
    Ret (zeros image_height image_width).
Proof.
  intros Hw Hh. rewrite render_cubes by easy. now rewrite fold_paint_nil.
Qed.

Lemma render_empty_scene_witness :
  render (@nil Cube) (mkLight (mkvec (-3) (-4) (-10)) (3 / 2)) (mkvec 22 (-2) 0) 800 600 90 =
    Ret (zeros 600 800).
Proof. apply render_empty_scene; lia. Defined.

(** X14.  A colour channel that is zero for every cube of the scene is zero
    in every pixel of the image, except in the pixels of three nan. *)
Theorem render_zero_channel (scene : list Cube) (scene_light : Light)
  (camera_position : vec) (image_width image_height : Z) (fov : R)
  (img : image_t) (y x : Z) (v : pixel) :
  render scene scene_light camera_position image_width image_height fov = Ret img ->
  get_pixel img y x = Some v ->
  ((forall obj, In obj scene -> vx (color obj) = 0) -> channel_zero vx v) /\
  ((forall obj, In obj scene -> vy (color obj) = 0) -> channel_zero vy v) /\
  ((forall obj, In obj scene -> vz (color obj) = 0) -> channel_zero vz v).
Proof.
  intros (_ & _ & ->)%render_cubes_inv Hv.
  split; [|split]; intros Hcol; revert Hv; apply get_pixel_all; apply fold_paint_all;
    try (now apply zeros_all);
    intros obj k Hin; apply clipped_color_channel_zero; now apply Hcol.
Qed.

(** With the light at the camera, the only pixel of a 1 x 1 image of the
    script's cube is fully lit: 1.5 + 0.1 times green, clipped to green. *)
Example render_lit_pixel :
  render [Cube_init (mkvec 0 0 (-5)) 2 (mkvec 0 1 0)] (mkLight (mkvec 0 0 0) (3 / 2))
    (mkvec 0 0 0) 1 1 90 = Ret [[RGB (mkvec 0 1 0)]].
Proof.
  rewrite render_cubes by lia.
  f_equal. change (pixels 1 1) with [(0, 0)%Z]. change (zeros 1 1) with [[RGB (mkvec 0 0 0)]].
  simpl fold_left. unfold paint, pixel_write. simpl fst. simpl snd.
  rewrite ray_1x1. simpl map. unfold scene_cand. simpl intersect.
  rewrite script_cube_front. simpl fold_left. cbv beta iota.
  assert (Hn : norm (mkvec 0 0 4) = 4).
  { unfold norm, dot; simpl. replace (0 * 0 + 0 * 0 + 4 * 4) with (4 * 4) by ring.
    apply sqrt_square. lra. }
  assert (Hl : compute_lighting (vadd (mkvec 0 0 0) (smulv 4 (mkvec 0 0 (-1)))) (mkvec 0 0 1)
                 (mkLight (mkvec 0 0 0) (3 / 2)) = Num (3 / 2)).
  { unfold compute_lighting. simpl position.
    replace (vsub _ _) with (mkvec 0 0 4) by (unfold vsub, vadd, smulv; simpl; f_equal; ring).
    rewrite div_by_norm_Some by (rewrite Hn; lra). rewrite Hn. f_equal.
    replace (dot _ _) with 1 by (unfold dot, vdivs; simpl; field).
    unfold pymax. replace (Rltb 1 0) with false by (symmetry; apply Rltb_false; lra).
    simpl. ring. }
  rewrite Hl. simpl.
  unfold set_pixel. simpl. do 3 f_equal.
  f_equal; apply clip01_spec; unfold ambient_light; lra.
Qed.

Lemma render_pixels_in_range_witness : pixel_in_range (RGB (mkvec 0 1 0)).
Proof.
  apply (render_pixels_in_range [Cube_init (mkvec 0 0 (-5)) 2 (mkvec 0 1 0)]
           (mkLight (mkvec 0 0 0) (3 / 2)) (mkvec 0 0 0) 1 1 90 [[RGB (mkvec 0 1 0)]] 0 0).
  - apply render_lit_pixel.
  - reflexivity.
Defined.

Lemma render_zero_channel_witness :
  let scene := [Cube_init (mkvec 0 0 (-5)) 2 (mkvec 0 1 0)] in
  let v := RGB (mkvec 0 1 0) in
  ((forall obj, In obj scene -> vx (color obj) = 0) -> channel_zero vx v) /\
  ((forall obj, In obj scene -> vy (color obj) = 0) -> channel_zero vy v) /\
  ((forall obj, In obj scene -> vz (color obj) = 0) -> channel_zero vz v).
Proof.
  intros scene v.
  apply (render_zero_channel scene (mkLight (mkvec 0 0 0) (3 / 2)) (mkvec 0 0 0) 1 1 90
           [[RGB (mkvec 0 1 0)]] 0 0).
  - apply render_lit_pixel.
  - reflexivity.
Defined.

(** ** When a pixel is nan *)

Lemma clipped_color_NaNs (col : vec) (k : flt) (a : R) :
  clipped_color col (flt_add k a) = NaNs <-> k = NaN.
Proof. destruct k; simpl; split; easy. Qed.

Lemma compute_lighting_Num (point normal : vec) (scene_light : Light) :
  norm (vsub (position scene_light) point) <> 0 ->
  exists r, compute_lighting point normal scene_light = Num r.
Proof.
  intros Hz. unfold compute_lighting. rewrite div_by_norm_Some by easy. eauto.
Qed.

(** X15.  When the nearest hit of the ray of a pixel is at the position of
    the light, the pixel of the image is three nan; when its distance to
    the light is in the range of float64, the pixel is three floats. *)
Theorem render_nan_at_light (scene : list Cube) (scene_light : Light) (camera_position : vec)
  (image_width image_height : Z) (fov : R) (y x : Z) :
  (0 <= y < image_height)%Z -> (0 <= x < image_width)%Z ->
  exists img origin direction,
    render scene scene_light camera_position image_width image_height fov = Ret img /\
    ray_from_camera camera_position x y image_width image_height fov = Ret (origin, direction) /\
    forall obj d n,
      In obj scene ->
      Cube_intersect obj origin direction = (Some d, Some n) ->
      (forall obj' d', In obj' scene ->
         fst (Cube_intersect obj' origin direction) = Some d' -> d <= d') ->
      (vadd origin (smulv d direction) = position scene_light ->
       get_pixel img y x = Some NaNs) /\
      (in_norm_range (vsub (position scene_light) (vadd origin (smulv d direction))) ->
       exists c, get_pixel img y x = Some (RGB c)).
Proof.
  intros Hy Hx.
  assert (Hn : forall (obj : Cube) o d dd normal,
             In obj scene -> intersect obj o d = (Some dd, normal) -> normal <> None).
  { intros obj o d dd normal _. apply Cube_normals. }
  destruct (render_pixel_of scene scene_light camera_position image_width image_height fov
              Hn y x Hy Hx) as (img & Hr & Hpx).
  destruct (pixel_of_cases scene scene_light camera_position image_width image_height fov
              Hn y x) as (origin & direction & Hray & Hcases); try lia.
  exists img, origin, direction. split; [easy|]. split; [easy|].
  intros obj' d' n' Hin' Hint' Hmin'.
  rewrite Hpx. unfold pixel_of.
  destruct Hcases as [(i & obj & d & n & Hi & Hint & Hmin & ->) | [Hnone ->]].
  - change (Cube_intersect obj origin direction = (Some d, Some n)) in Hint.
    apply In_nth_error in Hin' as [j Hj].
    assert (Hle : d <= d').
    { apply (Hmin j obj' d' Hj).
      change (fst (Cube_intersect obj' origin direction) = Some d'). now rewrite Hint'. }
    assert (Hge : d' <= d).
    { apply (Hmin' obj d); [now apply nth_error_In in Hi | now rewrite Hint]. }
    assert (d = d') by lra. subst d'. split.
    + intros Hlight. f_equal. apply clipped_color_NaNs. now apply compute_lighting_NaN.
    + intros Hz%in_norm_range_nonzero.
      destruct (compute_lighting_Num _ n scene_light Hz) as [r ->]. simpl. eauto.
  - exfalso. specialize (Hnone obj' Hin').
    change (fst (Cube_intersect obj' origin direction) = None) in Hnone.
    rewrite Hint' in Hnone. easy.
Qed.

Lemma render_nan_at_light_witness :
  let scene := [Cube_init (mkvec 0 0 (-5)) 2 (mkvec 0 1 0)] in
  let scene_light := mkLight (mkvec 0 0 (-4)) (3 / 2) in
  exists img origin direction,
    render scene scene_light (mkvec 0 0 0) 1 1 90 = Ret img /\
    ray_from_camera (mkvec 0 0 0) 0 0 1 1 90 = Ret (origin, direction) /\
    forall obj d n,
      In obj scene ->
      Cube_intersect obj origin direction = (Some d, Some n) ->
      (forall obj' d', In obj' scene ->
         fst (Cube_intersect obj' origin direction) = Some d' -> d <= d') ->
      (vadd origin (smulv d direction) = position scene_light ->
       get_pixel img 0 0 = Some NaNs) /\
      (in_norm_range (vsub (position scene_light) (vadd origin (smulv d direction))) ->
       exists c, get_pixel img 0 0 = Some (RGB c)).
Proof.
  intros scene scene_light.
  apply (render_nan_at_light scene scene_light (mkvec 0 0 0) 1 1 90 0 0); lia.
Defined.

(** ** The order of the scene *)

Lemma fold_nearer_In {A : Type} (l : list (option (R * A))) (d : R) (a : A) :
  fold_left nearer l None = Some (d, a) ->
  In (Some (d, a)) l /\ forall d' a', In (Some (d', a')) l -> d <= d'.
Proof.
  intros Hf. pose proof (fold_nearer_spec l) as Hs. rewrite Hf in Hs.
  destruct Hs as [i [Hi Hmin]]. split; [now apply nth_error_In in Hi|].
  intros d' a' [j Hj]%In_nth_error. now apply (Hmin j d' a').
Qed.

Lemma fold_nearer_None {A : Type} (l : list (option (R * A))) :
  fold_left nearer l None = None -> forall c, In c l -> c = None.
Proof.
  intros Hf. pose proof (fold_nearer_spec l) as Hs. now rewrite Hf in Hs.
Qed.

(** The least distance does not depend on the order of the candidates. *)
Lemma fold_nearer_perm {A : Type} (l l' : list (option (R * A))) :
  Permutation l l' ->
  option_map fst (fold_left nearer l None) = option_map fst (fold_left nearer l' None).
Proof.
  intros Hperm.
  destruct (fold_left nearer l None) as [[d a]|] eqn:Hl;
    destruct (fold_left nearer l' None) as [[d' a']|] eqn:Hl'; simpl; try easy.
  - apply fold_nearer_In in Hl as [Hin Hmin], Hl' as [Hin' Hmin'].
    f_equal. apply Rle_antisym.
    + apply (Hmin d' a'). now apply (Permutation_in _ (Permutation_sym Hperm)).
    + apply (Hmin' d a). now apply (Permutation_in _ Hperm).
  - apply fold_nearer_In in Hl as [Hin _].
    apply (Permutation_in _ Hperm) in Hin.
    now apply (fold_nearer_None _ Hl') in Hin.
  - apply fold_nearer_In in Hl' as [Hin _].
    apply (Permutation_in _ (Permutation_sym Hperm)) in Hin.
    now apply (fold_nearer_None _ Hl) in Hin.
Qed.

Lemma resolve_min_dist {Obj : Type} `{Intersectable Obj} (scene : list Obj) (o d : vec)
  (fr : frame) :
  min_dist (resolve scene o d fr) =
  match fold_left nearer (map (scene_cand o d) scene) None with
  | Some (dd, _) => Fin dd
  | None => Inf
  end.
Proof.
  pose proof (resolve_holds scene o d fr) as [_ Hh].
  destruct (fold_left nearer _ None) as [[dd [obj normal]]|]; now destruct Hh as (_ & -> & _).
Qed.

(** X16.  The distance of the nearest hit does not depend on the order of
    the objects in the scene, nor on what the frame held before: after the
    loop over a reordered scene [min_dist] is the same.  (The order decides
    only which of several objects at that distance is kept.) *)
Theorem resolve_min_dist_perm {Obj : Type} `{Intersectable Obj} (scene scene' : list Obj)
  (origin direction : vec) (fr fr' : frame) :
  Permutation scene scene' ->
  min_dist (resolve scene origin direction fr) = min_dist (resolve scene' origin direction fr').
Proof.
  intros Hperm. rewrite !resolve_min_dist.
  pose proof (fold_nearer_perm _ _ (Permutation_map (scene_cand origin direction) Hperm)) as Hp.
  destruct (fold_left nearer (map _ scene) None) as [[dd [obj normal]]|];
    destruct (fold_left nearer (map _ scene') None) as [[dd' [obj' normal']]|];
    simpl in Hp; congruence.
Qed.

Lemma resolve_min_dist_perm_witness :
  let red := Cube_init (mkvec 0 0 (-5)) 2 (mkvec 1 0 0) in
  let green := Cube_init (mkvec 0 0 (-7)) 2 (mkvec 0 1 0) in
  let fr := mkFrame [] 0 None Inf None in
  min_dist (resolve [red; green] (mkvec 0 0 0) (mkvec 0 0 (-1)) fr) =
  min_dist (resolve [green; red] (mkvec 0 0 0) (mkvec 0 0 (-1)) fr).
Proof.
  intros red green fr.
  apply (resolve_min_dist_perm [red; green] [green; red]). apply perm_swap.
Defined.

(** ** Bounds and special pixels *)

(** X17.  The threshold on [denom] bounds the distance that
    [Plane.intersect] returns: it is at most a million times the distance
    from the origin to the plane along the normal,
    [|dot(point - origin, normal)|]. *)
Theorem Plane_intersect_bounded (self : Plane) (o d : vec) (t : R) (n p : vec) :
  Plane_intersect self o d = Some (t, n, p) ->
  0 <= t <= 1000000 * Rabs (dot (vsub (point self) o) (normal self)).
Proof.
  intros Hp. pose proof (Plane_intersect_Some _ _ _ _ _ _ Hp) as (Hd & Ht & Hpos & _).
  split; [exact Hpos|].
  set (num := dot (vsub (point self) o) (normal self)) in *.
  set (den := dot d (normal self)) in *.
  assert (Hz : den <> 0) by (intros Hz; rewrite Hz, Rabs_R0 in Hd; lra).
  assert (Hnum : num = t * den) by (rewrite Ht; field; exact Hz).
  rewrite Hnum, Rabs_mult, (Rabs_pos_eq t) by exact Hpos.
  pose proof (Rabs_pos den). nra.
Qed.

Lemma Plane_intersect_bounded_witness :
  0 <= 4 <= 1000000 * Rabs (dot (vsub (mkvec 0 0 (-4)) (mkvec 0 0 0)) (mkvec 0 0 1)).
Proof.
  apply (Plane_intersect_bounded (mkPlane (mkvec 0 0 (-4)) (mkvec 0 0 1) (mkvec 0 1 0))
           (mkvec 0 0 0) (mkvec 0 0 (-1)) 4 (mkvec 0 0 1)
           (vadd (mkvec 0 0 0) (vmuls (mkvec 0 0 (-1)) 4))).
  apply Plane_intersect_hit.
  - unfold dot; simpl. rewrite Rabs_left; lra.
  - unfold dot, vsub; simpl. field.
  - lra.
Defined.

(** X18.  In an image of odd width [2 a + 1] and odd height [2 b + 1], the
    ray of the centre pixel [(a, b)] runs straight down the z axis, for
    every field of view. *)
Theorem ray_centre_pixel (camera_position : vec) (a b : Z) (fov : R) :
  ray_from_camera camera_position a b (2 * a + 1) (2 * b + 1) fov
    = Ret (camera_position, mkvec 0 0 (-1)).
Proof.
  assert (Hw : (2 * a + 1 <> 0)%Z) by lia.
  assert (Hh : (2 * b + 1 <> 0)%Z) by lia.
  rewrite ray_from_camera_value by easy. cbv zeta.
  pose proof (not_0_IZR _ Hw) as HW. pose proof (not_0_IZR _ Hh) as HH.
  rewrite plus_IZR, mult_IZR in HW, HH. rewrite !plus_IZR, !mult_IZR.
  match goal with |- context [vdivs ?v _] =>
    assert (Hv : v = mkvec 0 0 (-1)) by (f_equal; field; easy) end.
  rewrite Hv.
  assert (Hn : norm (mkvec 0 0 (-1)) = 1).
  { unfold norm, dot; simpl. replace (0 * 0 + 0 * 0 + -1 * -1) with 1 by ring. apply sqrt_1. }
  unfold vdivs. rewrite Hn. simpl. do 2 f_equal. f_equal; field.
Qed.

(** ** The code on float64 *)

Module F64Facts.
Import PrimFloat.
Local Open Scope float_scope.

(** The script's cube seen from the origin down the z axis, on floats as on
    the reals: the front face at distance 4. *)
Example script_cube_front_f64 :
  F64.Cube_intersect (F64.Cube_init (F64.mkvec 0 0 (-5)) 2 (F64.mkvec 0 1 0))
    (F64.mkvec 0 0 0) (F64.mkvec 0 0 (-1))
  = (Some 4, Some (F64.mkvec 0 0 1)).
Proof. vm_compute. reflexivity. Qed.

(** C8.  For some ray and some cube, the face test of [Cube.intersect]
    and the exact test of the face decide differently.  The ray runs down
    the z axis, off the centre of the script's cube, from z = 2^55: the
    distance to the plane z = -4 rounds to 2^55, the hit point comes out at
    z = 0, four units off the plane, and the test against
    [center + n * side / 2] rejects it, while on the two axes orthogonal to
    the normal it is inside the face. *)
Theorem face_test_differs :
  exists (c : F64.vec) (s : float) (col ray_origin ray_direction : F64.vec)
         (plane : F64.Plane) (dist : float) (n p : F64.vec),
    In plane (F64.planes (F64.Cube_init c s col)) /\
    F64.Plane_intersect plane ray_origin ray_direction = Some (dist, n, p) /\
    F64.within_face (F64.Cube_init c s col) n p = false /\
    F64.aabb_face_test (F64.Cube_init c s col) n p = true.
Proof.
  exists (F64.mkvec 0 0 (-5)), 2, (F64.mkvec 0 1 0),
         (F64.mkvec 0.5 0.25 0x1p55), (F64.mkvec 0 0 (-1)),
         (F64.mkPlane (F64.mkvec 0 0 (-4)) (F64.mkvec 0 0 1) (F64.mkvec 0 1 0)),
         0x1p55, (F64.mkvec 0 0 1), (F64.mkvec 0.5 0.25 0).
  split; [|split; [|split]].
  - vm_compute. do 4 right. left. reflexivity.
  - vm_compute. reflexivity.
  - vm_compute. reflexivity.
  - vm_compute. reflexivity.
Qed.

(** That ray goes through the cube, and [Cube.intersect] reports no hit. *)
Example far_ray_misses :
  F64.Cube_intersect (F64.Cube_init (F64.mkvec 0 0 (-5)) 2 (F64.mkvec 0 1 0))
    (F64.mkvec 0.5 0.25 0x1p55) (F64.mkvec 0 0 (-1))
  = (None, None).
Proof. vm_compute. reflexivity. Qed.

(** A light at 2^-600 from the point: the sum of squares underflows, the
    norm is 0 and the value is nan, at a point that is not the light. *)
Example lighting_underflow :
  is_nan (F64.compute_lighting (F64.mkvec 0 0 0) (F64.mkvec 0 0 1)
            (F64.mkLight (F64.mkvec 0 0 0x1p-600) 1.5)) = true.
Proof. vm_compute. reflexivity. Qed.

(** At four units from the light, the value of the real model. *)
Example lighting_in_range :
  F64.compute_lighting (F64.mkvec 0 0 (-4)) (F64.mkvec 0 0 1)
    (F64.mkLight (F64.mkvec 0 0 0) 1.5) = 1.5.
Proof. vm_compute. reflexivity. Qed.

(** A side of minus the least float: its half underflows to -0, and the
    cube is hit. *)
Example least_negative_side :
  F64.Cube_intersect
    (F64.Cube_init (F64.mkvec 0 0 (-5)) (-0x0.0000000000001p-1022) (F64.mkvec 0 1 0))
    (F64.mkvec 0 0 0) (F64.mkvec 0 0 (-1))
  = (Some 5, Some (F64.mkvec 0 0 1)).
Proof. vm_compute. reflexivity. Qed.

End F64Facts.
